(** * kconfigtest: a shallow embedding of the Kconfiglib compatibility test suite

    The development follows [kconfigtest.py]: the snapshot comparator
    [equal_confs], the two fixed-point loops of [test_all_no] and
    [test_all_yes], the introspection pass [test_call_all], the replay
    scenario [test_defconfig] and the driver [run_tests].  The library under
    test ([kconfiglib]), the operating system and the reference tool
    ([make ...]) are collaborators: they appear as the fields of the class
    [Kernel] and every result about the suite holds for each instance. *)

From Stdlib Require Import List String Ascii Bool Arith Lia PeanoNat DecimalString.
Import ListNotations.
Open Scope string_scope.
Open Scope list_scope.

(* ===================================================================== *)
(** * Part I: definitions                                                   *)
(* ===================================================================== *)

(** ** Tristate values *)

(** The values ["n"], ["m"] and ["y"] of a bool or tristate symbol. *)
Inductive tristate : Type := tri_n | tri_m | tri_y.

Definition tristate_eqb (a b : tristate) : bool :=
  match a, b with
  | tri_n, tri_n | tri_m, tri_m | tri_y, tri_y => true
  | _, _ => false
  end.

(** Modelled from the spec: [kconfiglib.tri_to_int] is not part of the test
    suite's file; the spec orders the tristate domain [n < m < y]. *)
Definition tri_to_int (v : tristate) : nat :=
  match v with tri_n => 0 | tri_m => 1 | tri_y => 2 end.

(** Modelled from the spec: [kconfiglib.tri_less(v1, v2)], the strict order
    [n < m < y] of the tristate domain ("ordered from lowest to highest" in
    the comment of [test_all_no]). *)
Definition tri_less (v1 v2 : tristate) : bool :=
  Nat.ltb (tri_to_int v1) (tri_to_int v2).

(** ** Strings, lines and the regular expression of [equal_confs] *)

Definition nl : string := String (ascii_of_nat 10) EmptyString.

Infix "+++" := String.append (right associativity, at level 60).

(** [s.startswith(p)] *)
Fixpoint startswith (p s : string) : bool :=
  match p with
  | EmptyString => true
  | String c p' =>
      match s with
      | EmptyString => false
      | String d s' => Ascii.eqb c d && startswith p' s'
      end
  end.

(** The class [\w] of Python 2's [re] without flags: [[a-zA-Z0-9_]]. *)
Definition is_word (c : ascii) : bool :=
  let k := nat_of_ascii c in
  (((48 <=? k) && (k <=? 57)) || ((65 <=? k) && (k <=? 90)) ||
   ((97 <=? k) && (k <=? 122)) || (k =? 95))%nat.

(** The fragment of regular expressions that [unset_re] uses: literal
    characters and [\w+]. *)
Inductive re_item : Type :=
| ReLit (c : ascii)
| ReWordPlus.

Fixpoint re_lits (s : string) : list re_item :=
  match s with
  | EmptyString => []
  | String c s' => ReLit c :: re_lits s'
  end.

(** [re.match(p, s)]: the pattern matches a prefix of [s] (it is anchored at
    the start only).  [\w+] takes one word character and then either goes on
    or hands over to the rest of the pattern, which is what a backtracking
    matcher explores. *)
Fixpoint re_match (p : list re_item) (s : string) {struct s} : bool :=
  match p with
  | [] => true
  | ReLit c :: p' =>
      match s with
      | EmptyString => false
      | String d s' => Ascii.eqb c d && re_match p' s'
      end
  | ReWordPlus :: p' =>
      match s with
      | EmptyString => false
      | String d s' => is_word d && (re_match p s' || re_match p' s')
      end
  end.

(** [unset_re = r"# CONFIG_(\w+) is not set"] *)
Definition unset_re : list re_item :=
  re_lits "# CONFIG_" ++ [ReWordPlus] ++ re_lits " is not set".

(** The test of the header loop: [not line.startswith("#") or
    re.match(unset_re, line)], on which the loop breaks. *)
Definition header_stop (line : string) : bool :=
  negb (startswith "#" line) || re_match unset_re line.

(** The loop [for line in l1: if ...: break; i += 1] of [equal_confs]: the
    value of [i] when the loop is left. *)
Fixpoint header_len (l1 : list string) : nat :=
  match l1 with
  | [] => 0
  | line :: rest => if header_stop line then 0 else S (header_len rest)
  end.

Fixpoint lines_eqb (a b : list string) : bool :=
  match a, b with
  | [], [] => true
  | x :: a', y :: b' => String.eqb x y && lines_eqb a' b'
  | _, _ => false
  end.

(** [equal_confs] on the lines read from [.config] ([l1], written by the
    reference tool) and [._config] ([l2], written by the library):
    [return (l1[i:] == l2)]. *)
Definition equal_confs_lines (l1 l2 : list string) : bool :=
  lines_eqb (skipn (header_len l1) l1) l2.

(** *** The comparator as the specification words it

    A line "of the exact form" [# CONFIG_<name> is not set]: the prefix, a
    non-empty name of word characters, the suffix, and nothing else but the
    line terminator that [readlines] keeps. *)
Fixpoint word_run_rest (s : string) : string :=
  match s with
  | EmptyString => EmptyString
  | String c s' => if is_word c then word_run_rest s' else s
  end.

Fixpoint strip_prefix (p s : string) : option string :=
  match p with
  | EmptyString => Some s
  | String c p' =>
      match s with
      | EmptyString => None
      | String d s' => if Ascii.eqb c d then strip_prefix p' s' else None
      end
  end.

Definition exact_unset_form (line : string) : bool :=
  match strip_prefix "# CONFIG_" line with
  | None => false
  | Some r =>
      match r with
      | EmptyString => false
      | String c _ =>
          is_word c &&
          (String.eqb (word_run_rest r) " is not set" ||
           String.eqb (word_run_rest r) (" is not set" +++ nl))
      end
  end.

(** The header of the specification: leading comment lines that are not of
    the exact form. *)
Fixpoint spec_header_len (l1 : list string) : nat :=
  match l1 with
  | [] => 0
  | line :: rest =>
      if startswith "#" line && negb (exact_unset_form line)
      then S (spec_header_len rest) else 0
  end.

(** ** The collaborators

    Everything the suite calls but does not define: the library under test
    ([kconfiglib.Config], [Symbol], [Choice]), the operating system ([os],
    [subprocess], [open], [time]) and [textwrap].  [World] is the state all of
    them share: the file system, the environment and the state of every
    [Config] instance.  [Conf], [Sym] and [Choice] are the Python objects,
    known by their identity; a method that reads takes the world, a method
    that writes returns the new one.  Values and bounds are those of bool and
    tristate symbols, the only ones the suite compares; the architecture of
    a [Config] is the one it was made for.  Of the exceptions a collaborator
    could raise, the model follows [Kconfig_Syntax_Error] of [conf.eval] and
    the [IOError] of opening a snapshot file that is not there; every other
    call returns. *)

(** What [conf.eval(s)] does, as far as the suite looks at it: it returns a
    value, which the suite drops, or raises [Kconfig_Syntax_Error]. *)
Inductive eval_result : Type := EvalOk | EvalSyntaxError.

Class Kernel : Type := {
  World : Type;
  Conf : Type;
  Sym : Type;
  Choice : Type;
  Loc : Type;
  (* identity of symbol objects, for [is] and [is not] *)
  sym_is : Sym -> Sym -> bool;
  (* kconfiglib.Config *)
  new_Config : World -> Conf * World;
  conf_get_arch : Conf -> string;
  conf_iter : World -> Conf -> list Sym;
  conf_get_symbols : World -> Conf -> list Sym;
  conf_get_choices : World -> Conf -> list Choice;
  conf_reset : Conf -> World -> World;
  conf_write_config : Conf -> string -> World -> World;
  conf_load_config : Conf -> string -> World -> World;
  conf_eval : World -> Conf -> string -> eval_result;
  (* kconfiglib.Symbol *)
  sym_is_choice_item : World -> Sym -> bool;
  sym_get_lower_bound : World -> Sym -> option tristate;
  sym_get_upper_bound : World -> Sym -> option tristate;
  sym_calc_value : World -> Sym -> tristate;
  sym_set_value : Sym -> tristate -> World -> World;
  sym_reset : Sym -> World -> World;
  sym_get_name : World -> Sym -> string;
  sym_is_special : World -> Sym -> bool;
  sym_is_from_environment : World -> Sym -> bool;
  sym_is_defined : World -> Sym -> bool;
  sym_get_def_locations : World -> Sym -> list Loc;
  sym_get_ref_locations : World -> Sym -> list Loc;
  (* kconfiglib.Choice *)
  choice_get_visibility : World -> Choice -> tristate;
  choice_get_selection_from_defaults : World -> Choice -> option Sym;
  choice_get_user_selection : World -> Choice -> option Sym;
  choice_get_items : World -> Choice -> list Sym;
  (* os, subprocess, open, time *)
  os_listdir : World -> string -> list string;
  os_path_exists : World -> string -> bool;
  os_path_isdir : World -> string -> bool;
  os_walk : World -> string -> list (string * list string * list string);
  os_remove : string -> World -> World;
  os_setenv : string -> string -> World -> World;
  os_unsetenv : string -> World -> World;
  shell : string -> World -> World;
  readlines : World -> string -> option (list string);
  open_append : string -> World -> World;
  file_write : string -> string -> World -> World;
  strftime_now : World -> string
}.

(** ** The fixed-point loops of [test_all_no] and [test_all_yes] *)

Section Resolver.
Context {K : Kernel}.

(** The body of [for sym in conf] in [test_all_no]; the state is the world
    and the flag [done]. *)
Definition all_no_visit (sym : Sym) (st : World * bool) : World * bool :=
  let (w, done) := st in
  if negb (sym_is_choice_item w sym) then
    match sym_get_lower_bound w sym with
    | Some lower_bound =>
        if tri_less lower_bound (sym_calc_value w sym)
        then (sym_set_value sym lower_bound w, false)
        else (w, done)
    | None => (w, done)
    end
  else (w, done).

(** One turn of [while True] in [test_all_no]: [done = True], then the loop
    over the symbols; the flag returned is the one [if done: break] tests. *)
Definition all_no_pass (conf : Conf) (w : World) : World * bool :=
  fold_left (fun st sym => all_no_visit sym st) (conf_iter w conf) (w, true).

(** [while True] of [test_all_no] with at most [fuel] passes; the result is
    the world when the loop breaks and the number of passes made. *)
Fixpoint all_no_loop (fuel : nat) (conf : Conf) (w : World)
  : option (World * nat) :=
  match fuel with
  | 0 => None
  | S k =>
      let (w', done) := all_no_pass conf w in
      if done then Some (w', 1)
      else match all_no_loop k conf w' with
           | Some (w'', p) => Some (w'', S p)
           | None => None
           end
  end.

(** [non_choice_syms] of [test_all_yes]. *)
Definition non_choice_syms (conf : Conf) (w : World) : list Sym :=
  filter (fun sym => negb (sym_is_choice_item w sym)) (conf_get_symbols w conf).

(** The body of [for sym in non_choice_syms]. *)
Definition all_yes_visit (sym : Sym) (st : World * bool) : World * bool :=
  let (w, done) := st in
  match sym_get_upper_bound w sym with
  | Some upper_bound =>
      if tri_less (sym_calc_value w sym) upper_bound
      then (sym_set_value sym upper_bound w, false)
      else (w, done)
  | None => (w, done)
  end.

(** [selection is not choice.get_user_selection()], for a selection that is
    not [None]. *)
Definition is_not_user_selection (selection : Sym) (user : option Sym) : bool :=
  match user with
  | Some u => negb (sym_is selection u)
  | None => true
  end.

(** [sym.get_upper_bound() != "n"]; [None != "n"] holds. *)
Definition upper_bound_not_n (ub : option tristate) : bool :=
  match ub with
  | Some v => negb (tristate_eqb v tri_n)
  | None => true
  end.

(** The body of [for sym in choice.get_items()], for a choice in "m" mode. *)
Definition all_yes_choice_item (sym : Sym) (st : World * bool) : World * bool :=
  let (w, done) := st in
  if negb (tristate_eqb (sym_calc_value w sym) tri_m) &&
     upper_bound_not_n (sym_get_upper_bound w sym)
  then (sym_set_value sym tri_m w, false)
  else (w, done).

(** The body of [for choice in conf.get_choices()]. *)
Definition all_yes_choice (choice : Choice) (st : World * bool) : World * bool :=
  let (w, done) := st in
  if tristate_eqb (choice_get_visibility w choice) tri_y then
    match choice_get_selection_from_defaults w choice with
    | Some selection =>
        if is_not_user_selection selection (choice_get_user_selection w choice)
        then (sym_set_value selection tri_y w, false)
        else (w, done)
    | None => (w, done)
    end
  else if tristate_eqb (choice_get_visibility w choice) tri_m then
    fold_left (fun st' sym => all_yes_choice_item sym st')
              (choice_get_items w choice) (w, done)
  else (w, done).

(** One turn of [while True] in [test_all_yes]. *)
Definition all_yes_pass (conf : Conf) (syms : list Sym) (w : World)
  : World * bool :=
  let st1 := fold_left (fun st sym => all_yes_visit sym st) syms (w, true) in
  fold_left (fun st choice => all_yes_choice choice st)
            (conf_get_choices (fst st1) conf) st1.

Fixpoint all_yes_loop (fuel : nat) (conf : Conf) (syms : list Sym) (w : World)
  : option (World * nat) :=
  match fuel with
  | 0 => None
  | S k =>
      let (w', done) := all_yes_pass conf syms w in
      if done then Some (w', 1)
      else match all_yes_loop k conf syms w' with
           | Some (w'', p) => Some (w'', S p)
           | None => None
           end
  end.





End Resolver.

(** ** The state of the suite and its monad *)

Section Suite.
Context {K : Kernel}.

(** The module's globals [nconfigs] and [_all_ok], what was written to
    [sys.stdout] (oldest first), and the world.  [fail_calls] is a history
    variable: it counts the calls of [fail()] and the program never reads
    it. *)
Record State : Type := mkState {
  nconfigs : nat;
  _all_ok : bool;
  stdout : list string;
  fail_calls : nat;
  world : World
}.

(** The exceptions the model follows: the one [test_call_all] catches, and
    the one [open] raises for a snapshot file that [rm_configs] has removed
    and nobody has written since. *)
Inductive exn : Type := Kconfig_Syntax_Error | IOError.

Inductive outcome (A : Type) : Type :=
| Ret (a : A) (s : State)
| Raise (e : exn) (s : State)
| OutOfFuel.
Arguments Ret {A} a s.
Arguments Raise {A} e s.
Arguments OutOfFuel {A}.

Definition M (A : Type) : Type := State -> outcome A.

Definition ret {A} (a : A) : M A := fun s => Ret a s.

Definition bind {A B} (m : M A) (f : A -> M B) : M B :=
  fun s =>
    match m s with
    | Ret a s' => f a s'
    | Raise e s' => Raise e s'
    | OutOfFuel => OutOfFuel
    end.

Notation "x <- m ;; k" := (bind m (fun x => k))
  (at level 61, m at next level, right associativity).
Notation "m ;; k" := (bind m (fun _ => k))
  (at level 61, right associativity).

(** [try: m  except e: h] *)
Definition try_except {A} (m : M A) (e : exn) (h : M A) : M A :=
  fun s =>
    match m s with
    | Raise e' s' =>
        match e, e' with
        | Kconfig_Syntax_Error, Kconfig_Syntax_Error | IOError, IOError => h s'
        | _, _ => Raise e' s'
        end
    | o => o
    end.

Fixpoint for_each {X} (l : list X) (body : X -> M unit) : M unit :=
  match l with
  | [] => ret tt
  | x :: l' => body x ;; for_each l' body
  end.

Definition gets {A} (f : World -> A) : M A := fun s => Ret (f (world s)) s.

Definition on_world (f : World -> World) : M unit :=
  fun s => Ret tt (mkState (nconfigs s) (_all_ok s) (stdout s) (fail_calls s)
                           (f (world s))).

(** [sys.stdout.write(text)] *)
Definition stdout_write (text : string) : M unit :=
  fun s => Ret tt (mkState (nconfigs s) (_all_ok s) (stdout s ++ [text])
                           (fail_calls s) (world s)).

(** [print text] *)
Definition print (text : string) : M unit := stdout_write (text +++ nl).

(** ** Helper functions of the suite *)

Definition fail : M unit :=
  fun s => Ret tt (mkState (nconfigs s) false (stdout s) (S (fail_calls s))
                           (world s)).

Definition all_ok : M bool := fun s => Ret (_all_ok s) s.

Definition shell_m (cmd : string) : M unit := on_world (shell cmd).

Definition rm_if_exists (f : string) (w : World) : World :=
  if os_path_exists w f then os_remove f w else w.

Definition rm_configs : M unit :=
  on_world (rm_if_exists ".config") ;; on_world (rm_if_exists "._config").

(** [with open(name) as f: l = f.readlines()] *)
Definition open_readlines (name : string) : M (list string) :=
  fun s =>
    match readlines (world s) name with
    | Some l => Ret l s
    | None => Raise IOError s
    end.

Definition equal_confs : M bool :=
  l1 <- open_readlines ".config" ;;
  l2 <- open_readlines "._config" ;;
  ret (equal_confs_lines l1 l2).

(** [os.path.join], for the relative, non-empty names the suite joins. *)
Definition path_join (a b : string) : string := a +++ "/" +++ b.

Fixpoint spaces (k : nat) : string :=
  match k with
  | 0 => EmptyString
  | S k' => String " " (spaces k')
  end.

(** ["{0:<k}".format(s)] *)
Definition ljust (k : nat) (s : string) : string :=
  s +++ spaces (k - String.length s).

(** [str(k)] for a count. *)
Definition str_nat (k : nat) : string :=
  DecimalString.NilEmpty.string_of_uint (Nat.to_uint k).

(** ** [get_arch_configs] *)

Definition add_arch (archdir ARCH : string) (st : list Conf * World)
  : list Conf * World :=
  let (res, w) := st in
  let w1 := os_setenv "SRCARCH" archdir w in
  let w2 := os_setenv "ARCH" ARCH w1 in
  let (c, w3) := new_Config w2 in
  (res ++ [c], w3).

Definition add_arch_dir (st : list Conf * World) (archdir : string)
  : list Conf * World :=
  if String.eqb archdir "h8300" then st
  else if os_path_exists (snd st) (path_join (path_join "arch" archdir) "Kconfig")
  then
    let st1 := add_arch archdir archdir st in
    if String.eqb archdir "x86" then
      add_arch archdir "x86_64" (add_arch archdir "i386" st1)
    else if String.eqb archdir "sparc" then
      add_arch archdir "sparc64" (add_arch archdir "sparc32" st1)
    else if String.eqb archdir "sh" then
      add_arch archdir "sh64" st1
    else if String.eqb archdir "tile" then
      add_arch archdir "tilegx" (add_arch archdir "tilepro" st1)
    else st1
  else st.

Definition arch_configs_of (w : World) : list Conf * World :=
  let (res, w') := fold_left add_arch_dir (os_listdir w "arch") ([], w) in
  (res, os_unsetenv "SRCARCH" (os_unsetenv "ARCH" w')).

Definition get_arch_configs : M (list Conf) :=
  fun s =>
    let (res, w') := arch_configs_of (world s) in
    Ret res (mkState (nconfigs s) (_all_ok s) (stdout s) (fail_calls s) w').

(** ** The tests *)

(** Runs a fixed-point loop on the world; a loop that has not broken when
    the fuel is spent has no outcome. *)
Definition run_loop (loop : World -> option (World * nat)) : M unit :=
  fun s =>
    match loop (world s) with
    | Some (w', _) =>
        Ret tt (mkState (nconfigs s) (_all_ok s) (stdout s) (fail_calls s) w')
    | None => OutOfFuel
    end.

Definition test_all_no (fuel : nat) (conf : Conf) : M unit :=
  run_loop (all_no_loop fuel conf) ;;
  on_world (conf_write_config conf "._config") ;;
  shell_m "make allnoconfig".

Definition test_all_yes (fuel : nat) (conf : Conf) : M unit :=
  syms <- gets (non_choice_syms conf) ;;
  run_loop (all_yes_loop fuel conf syms) ;;
  on_world (conf_write_config conf "._config") ;;
  shell_m "make allyesconfig".

Definition test_config_absent (conf : Conf) : M unit :=
  on_world (conf_write_config conf "._config") ;;
  shell_m "make alldefconfig".

(** [conf.eval(s)]: the value is dropped by every caller. *)
Definition conf_eval_m (conf : Conf) (s : string) : M unit :=
  fun st =>
    match conf_eval (world st) conf s with
    | EvalOk => Ret tt st
    | EvalSyntaxError => Raise Kconfig_Syntax_Error st
    end.

(** The block of [test_call_all] under the comment "Syntax error". *)
Definition syntax_error_check (conf : Conf) : M unit :=
  caught_exception <-
    try_except (conf_eval_m conf "y && && y" ;; ret false)
               Kconfig_Syntax_Error (ret true) ;;
  if negb caught_exception then
    print "Fail: no exception generated for expression with syntax error" ;;
    fail
  else ret tt.

Definition is_empty {A} (l : list A) : bool :=
  match l with [] => true | _ => false end.

Definition when (b : bool) (m : M unit) : M unit := if b then m else ret tt.

(** The sanity checks on the locations of one symbol, "Check
    get_ref/def_location() sanity". *)
Definition location_checks (s : Sym) : M unit :=
  name <- gets (fun w => sym_get_name w s) ;;
  special <- gets (fun w => sym_is_special w s) ;;
  if special then
    from_env <- gets (fun w => sym_is_from_environment w s) ;;
    if from_env then
      defs <- gets (fun w => sym_get_def_locations w s) ;;
      when (is_empty defs)
        (print ("Fail: the symbol '" +++ name +++
                "' is from the environment but lacks define locations") ;;
         fail)
    else
      defined <- gets (fun w => sym_is_defined w s) ;;
      when (negb defined)
        (print ("Fail: the special symbol '" +++ name +++ "' is not defined") ;;
         fail) ;;
      defs <- gets (fun w => sym_get_def_locations w s) ;;
      when (negb (is_empty defs))
        (print ("Fail: the special symbol '" +++ name +++
                "' has recorded def. locations") ;;
         fail)
  else
    defined <- gets (fun w => sym_is_defined w s) ;;
    if defined then
      defs <- gets (fun w => sym_get_def_locations w s) ;;
      when (is_empty defs)
        (print ("Fail: '" +++ name +++ "' defined but lacks recorded locations") ;;
         fail)
    else
      defs <- gets (fun w => sym_get_def_locations w s) ;;
      when (negb (is_empty defs))
        (print ("Fail: '" +++ name +++ "' undefined but has recorded locations") ;;
         fail) ;;
      refs <- gets (fun w => sym_get_ref_locations w s) ;;
      when (is_empty refs)
        (print ("Fail: '" +++ name +++ "' both undefined and unreferenced")).

(** [test_call_all].  The calls whose result is dropped and that only read
    (the getters of [Config], [Symbol], [Choice], [Menu] and [Comment]) leave
    no trace in the state and are left out. *)
Definition test_call_all (conf : Conf) : M unit :=
  print ("  For " +++ conf_get_arch conf +++ "...") ;;
  conf_eval_m conf "y && ARCH" ;;
  syntax_error_check conf ;;
  on_world (conf_reset conf) ;;
  syms <- gets (fun w => conf_get_symbols w conf) ;;
  for_each syms (fun s => on_world (sym_reset s) ;; location_checks s).

(** The collection loop of [test_defconfig] for one entry of
    [os.listdir("arch")]: the paths it appends, and the warning it prints. *)
Definition arch_defconfigs (w : World) (arch : string) : list string :=
  let arch_dir := path_join "arch" arch in
  let root_defconfig := path_join arch_dir "defconfig" in
  let defconfigs_dir := path_join arch_dir "configs" in
  (if os_path_exists w root_defconfig then [root_defconfig] else []) ++
  (if negb (os_path_exists w defconfigs_dir) then []
   else if negb (os_path_isdir w defconfigs_dir) then []
   else flat_map (fun '(dirpath, _, filenames) =>
                    map (path_join dirpath) filenames)
                 (os_walk w defconfigs_dir)).

Definition arch_warnings (w : World) (arch : string) : list string :=
  let defconfigs_dir := path_join (path_join "arch" arch) "configs" in
  if os_path_exists w defconfigs_dir && negb (os_path_isdir w defconfigs_dir)
  then ["Warning: '" +++ defconfigs_dir +++ "' is not a directory - skipping"]
  else [].

Definition defconfigs_of (w : World) : list string :=
  flat_map (arch_defconfigs w) (os_listdir w "arch").

Definition collect_defconfigs : M (list string) :=
  w <- gets (fun w => w) ;;
  for_each (flat_map (arch_warnings w) (os_listdir w "arch")) print ;;
  ret (defconfigs_of w).

Definition incr_nconfigs : M unit :=
  fun s => Ret tt (mkState (S (nconfigs s)) (_all_ok s) (stdout s)
                           (fail_calls s) (world s)).

(** The progress text of one arch/defconfig pair:
    ["  {0:<14}with {1:<60} ".format(conf.get_arch(), defconfig)]. *)
Definition defconfig_progress (conf : Conf) (defconfig : string) : string :=
  "  " +++ ljust 14 (conf_get_arch conf) +++ "with " +++
  ljust 60 defconfig +++ " ".

Definition fail_log_record (now : string) (conf : Conf) (defconfig : string)
  : string :=
  now +++ "  " +++ conf_get_arch conf +++ " with " +++ defconfig +++
  " did not match" +++ nl.

(** The body of [for defconfig in defconfigs]. *)
Definition defconfig_trial (conf : Conf) (defconfig : string) : M unit :=
  rm_configs ;;
  incr_nconfigs ;;
  on_world (conf_load_config conf defconfig) ;;
  on_world (conf_write_config conf "._config") ;;
  shell_m ("cp " +++ defconfig +++ " .config") ;;
  shell_m "make kconfiglibtestconfig" ;;
  stdout_write (defconfig_progress conf defconfig) ;;
  equal <- equal_confs ;;
  if equal then print "OK"
  else
    print "FAIL" ;;
    now <- gets strftime_now ;;
    on_world (file_write "test_defconfig_fails"
                         (fail_log_record now conf defconfig)) ;;
    fail.

Definition test_defconfig (conf : Conf) : M unit :=
  on_world (open_append "test_defconfig_fails") ;;
  defconfigs <- collect_defconfigs ;;
  for_each defconfigs (defconfig_trial conf).

(** ** [run_tests] *)

(** An entry of [all_arch_tests], with the dedented docstring that
    [run_tests] prints. *)
Record arch_test : Type := mkTest {
  test_fn : Conf -> M unit;
  test_doc : string;
  compare_configs : bool
}.

Definition doc_lines (ls : list string) : string :=
  String.concat nl (EmptyString :: ls).

Definition all_no_test (fuel : nat) : arch_test :=
  mkTest (test_all_no fuel)
    (doc_lines
       ["Test if our allnoconfig implementation generates the same .config as";
        "'make allnoconfig', for all architectures"])
    true.

Definition config_absent_test : arch_test :=
  mkTest test_config_absent
    (doc_lines
       ["Test if kconfiglib generates the same configuration as 'conf' without a";
        ".config, for each architecture"])
    true.

Definition all_yes_test (fuel : nat) : arch_test :=
  mkTest (test_all_yes fuel)
    (doc_lines
       ["Test if our allyesconfig implementation generates the same .config as 'make";
        "allyesconfig', for all architectures"])
    true.

Definition call_all_test : arch_test :=
  mkTest test_call_all
    (doc_lines
       ["Call all public methods on all symbols, menus, choices and comments (nearly";
        "all public methods: some are hard to test like this, but are exercised by";
        "other tests) for all architectures to make sure we never crash or hang.";
        "Also do misc. sanity checks."])
    false.

Definition defconfig_test : arch_test :=
  mkTest test_defconfig
    (doc_lines
       ["Test if kconfiglib generates the same .config as scripts/kconfig/conf for";
        "each architecture/defconfig pair. This test includes nonsensical groupings";
        "of arches with defconfigs from other arches (every arch/defconfig";
        "combination in fact) as this has proven effective in finding obscure bugs.";
        "For that reason this test takes many hours to run even on fast systems.";
        "";
        "This test appends any failures to a file test_defconfig_fails in the";
        "root."])
    false.

Definition all_arch_tests (fuel : nat) : list arch_test :=
  [ all_no_test fuel; config_absent_test; all_yes_test fuel; call_all_test;
    defconfig_test ].

(** The comparison after [test_fn(conf)], under [if compare_configs]. *)
Definition compare_progress (conf : Conf) : string :=
  "  " +++ ljust 14 (conf_get_arch conf).

Definition compare_step (conf : Conf) : M unit :=
  stdout_write (compare_progress conf) ;;
  equal <- equal_confs ;;
  if equal then print "OK" else (print "FAIL" ;; fail).

(** The body of [for conf in arch_configs]. *)
Definition run_arch (t : arch_test) (conf : Conf) : M unit :=
  rm_configs ;;
  on_world (os_setenv "ARCH" (conf_get_arch conf)) ;;
  test_fn t conf ;;
  when (compare_configs t) (compare_step conf).

(** The body of [for (test_fn, compare_configs) in all_arch_tests]. *)
Definition run_test (arch_configs : list Conf) (t : arch_test) : M unit :=
  print "Resetting all architecture Config instances prior to next test..." ;;
  for_each arch_configs (fun arch => on_world (conf_reset arch)) ;;
  print (test_doc t) ;;
  for_each arch_configs (run_arch t) ;;
  print "".

(** The summary at the end of [run_tests]. *)
Definition summary : M unit :=
  ok <- all_ok ;;
  if ok then
    print "All OK" ;;
    fun s => print (str_nat (nconfigs s) +++ " arch/defconfig pairs tested") s
  else print "Some tests failed".

Definition run_tests (fuel : nat) : M unit :=
  print "Loading Config instances for all architectures..." ;;
  arch_configs <- get_arch_configs ;;
  for_each (all_arch_tests fuel) (run_test arch_configs) ;;
  summary.

(** The module, run as a script: the assignments at its top, then
    [run_tests()].  [_all_ok = True] and [nconfigs = 0] are the state the
    module starts in. *)
Definition init_state (w : World) : State := mkState 0 true [] 0 w.

Definition main (fuel : nat) (w : World) : outcome unit :=
  (on_world (os_setenv "KERNELVERSION" "2") ;;
   on_world (os_unsetenv "KCONFIG_ALLCONFIG") ;;
   run_tests fuel) (init_state w).

(** The exit status of the interpreter: 0 when the script runs to its end
    (it never calls [sys.exit]), 1 when an exception is not caught. *)
Definition exit_status (o : outcome unit) : option nat :=
  match o with
  | Ret _ _ => Some 0
  | Raise _ _ => Some 1
  | OutOfFuel => None
  end.

End Suite.

Arguments Ret {K A} a s.
Arguments Raise {K A} e s.
Arguments OutOfFuel {K A}.

Notation "x <- m ;; k" := (bind m (fun x => k))
  (at level 61, m at next level, right associativity).
Notation "m ;; k" := (bind m (fun _ => k))
  (at level 61, right associativity).

(** ** The engine's expression syntax *)

Module Expr.

(** Modelled from the spec: the engine's evaluation of an expression
    ([kconfiglib.Config.eval]) is not part of the test suite's file.  The
    spec asks that it "fails with a syntax-error condition when given a
    malformed logical expression"; the logical expressions are taken to be
    those over symbol names and constants built with [!], [&&], [||], [=],
    [!=] and parentheses, which is the language of the two expressions the
    suite evaluates. *)
Inductive token : Type :=
| T_AND | T_OR | T_NOT | T_OPEN_PAREN | T_CLOSE_PAREN | T_EQUAL | T_UNEQUAL
| T_OPERAND (name : string)
| T_BAD.

Definition flush (cur : string) (ts : list token) : list token :=
  match cur with
  | EmptyString => ts
  | _ => T_OPERAND cur :: ts
  end.

(** Modelled from the spec: the tokens of a logical expression, read from
    left to right; [cur] is the operand being read. *)
Fixpoint tokenize (cur : string) (s : string) : list token :=
  match s with
  | EmptyString => flush cur []
  | String c s' =>
      if is_word c then tokenize (cur +++ String c EmptyString) s'
      else
        flush cur
          (match c, s' with
           | "&"%char, String "&"%char s'' => T_AND :: tokenize EmptyString s''
           | "|"%char, String "|"%char s'' => T_OR :: tokenize EmptyString s''
           | "!"%char, String "="%char s'' => T_UNEQUAL :: tokenize EmptyString s''
           | "!"%char, _ => T_NOT :: tokenize EmptyString s'
           | "="%char, _ => T_EQUAL :: tokenize EmptyString s'
           | "("%char, _ => T_OPEN_PAREN :: tokenize EmptyString s'
           | ")"%char, _ => T_CLOSE_PAREN :: tokenize EmptyString s'
           | " "%char, _ => tokenize EmptyString s'
           | _, _ => T_BAD :: tokenize EmptyString s'
           end)
  end.

(** Modelled from the spec: a recursive-descent reader of
    [or_expr ::= and_expr ("||" and_expr)*],
    [and_expr ::= factor ("&&" factor)*] and
    [factor ::= "!" factor | "(" or_expr ")" | operand (("="|"!=") operand)?].
    The result is the input left over, or [None] for a malformed
    expression. *)
Fixpoint parse_or (fuel : nat) (ts : list token) : option (list token) :=
  match fuel with
  | 0 => None
  | S k =>
      match parse_and k ts with
      | Some (T_OR :: r) => parse_or k r
      | o => o
      end
  end
with parse_and (fuel : nat) (ts : list token) : option (list token) :=
  match fuel with
  | 0 => None
  | S k =>
      match parse_factor k ts with
      | Some (T_AND :: r) => parse_and k r
      | o => o
      end
  end
with parse_factor (fuel : nat) (ts : list token) : option (list token) :=
  match fuel with
  | 0 => None
  | S k =>
      match ts with
      | T_OPERAND _ :: T_EQUAL :: T_OPERAND _ :: r => Some r
      | T_OPERAND _ :: T_UNEQUAL :: T_OPERAND _ :: r => Some r
      | T_OPERAND _ :: T_EQUAL :: _ => None
      | T_OPERAND _ :: T_UNEQUAL :: _ => None
      | T_OPERAND _ :: r => Some r
      | T_NOT :: r => parse_factor k r
      | T_OPEN_PAREN :: r =>
          match parse_or k r with
          | Some (T_CLOSE_PAREN :: r') => Some r'
          | _ => None
          end
      | _ => None
      end
  end.

Definition well_formed (s : string) : bool :=
  let ts := tokenize EmptyString s in
  match parse_or (3 * List.length ts + 3) ts with
  | Some [] => true
  | _ => false
  end.

(** Modelled from the spec: [conf.eval(s)] raises the syntax-error
    condition exactly on a malformed expression. *)
Definition eval (s : string) : eval_result :=
  if well_formed s then EvalOk else EvalSyntaxError.

End Expr.

(** ** A small kernel tree

    An instance of [Kernel] to run the suite on: one architecture directory
    ([x86], with the two extra [ARCH] settings of the suite), two defconfigs,
    and a configuration of two tristate symbols, [B] before [A], where [B]
    can only move once [A] has reached the end of its range (as a symbol that
    is selected by another one does).  Bounds move a value one step at a
    time. *)
Module Toy.

Inductive sym : Type := SymB | SymA.

Record toy_world : Type := mkToy {
  val_a : tristate;
  val_b : tristate;
  dot_config : option (list string);      (* .config *)
  my_config : option (list string);       (* ._config *)
  tool_output : list string;              (* what the reference tool writes *)
  env_arch : string;                      (* os.environ["ARCH"] *)
  fail_log : list string                  (* test_defconfig_fails *)
}.

Definition tri_pred (v : tristate) : tristate :=
  match v with tri_y => tri_m | _ => tri_n end.

Definition tri_succ (v : tristate) : tristate :=
  match v with tri_n => tri_m | _ => tri_y end.

Definition calc_value (w : toy_world) (s : sym) : tristate :=
  match s with SymA => val_a w | SymB => val_b w end.

Definition get_lower_bound (w : toy_world) (s : sym) : option tristate :=
  match s with
  | SymA => Some (tri_pred (val_a w))
  | SymB => if tristate_eqb (val_a w) tri_n then Some (tri_pred (val_b w))
            else None
  end.

Definition get_upper_bound (w : toy_world) (s : sym) : option tristate :=
  match s with
  | SymA => Some (tri_succ (val_a w))
  | SymB => if tristate_eqb (val_a w) tri_y then Some (tri_succ (val_b w))
            else None
  end.

Definition set_value (s : sym) (v : tristate) (w : toy_world) : toy_world :=
  match s with
  | SymA => mkToy v (val_b w) (dot_config w) (my_config w) (tool_output w)
                  (env_arch w) (fail_log w)
  | SymB => mkToy (val_a w) v (dot_config w) (my_config w) (tool_output w)
                  (env_arch w) (fail_log w)
  end.

Definition reset (w : toy_world) : toy_world :=
  mkToy tri_y tri_y (dot_config w) (my_config w) (tool_output w)
        (env_arch w) (fail_log w).

Definition render_sym (name : string) (v : tristate) : string :=
  match v with
  | tri_n => "# CONFIG_" +++ name +++ " is not set" +++ nl
  | tri_m => "CONFIG_" +++ name +++ "=m" +++ nl
  | tri_y => "CONFIG_" +++ name +++ "=y" +++ nl
  end.

Definition write_config (f : string) (w : toy_world) : toy_world :=
  if String.eqb f "._config" then
    mkToy (val_a w) (val_b w) (dot_config w)
          (Some [render_sym "B" (val_b w); render_sym "A" (val_a w)])
          (tool_output w) (env_arch w) (fail_log w)
  else w.

Definition run_shell (w : toy_world) : toy_world :=
  mkToy (val_a w) (val_b w)
        (Some (("#" +++ nl) :: ("# Automatically generated" +++ nl) ::
               tool_output w))
        (my_config w) (tool_output w) (env_arch w) (fail_log w).

Definition remove (f : string) (w : toy_world) : toy_world :=
  if String.eqb f ".config" then
    mkToy (val_a w) (val_b w) None (my_config w) (tool_output w) (env_arch w)
          (fail_log w)
  else if String.eqb f "._config" then
    mkToy (val_a w) (val_b w) (dot_config w) None (tool_output w) (env_arch w)
          (fail_log w)
  else w.

Definition read (w : toy_world) (f : string) : option (list string) :=
  if String.eqb f ".config" then dot_config w
  else if String.eqb f "._config" then my_config w
  else None.

Definition is_some {A} (o : option A) : bool :=
  match o with Some _ => true | None => false end.

Definition path_exists (w : toy_world) (f : string) : bool :=
  if String.eqb f ".config" then is_some (dot_config w)
  else if String.eqb f "._config" then is_some (my_config w)
  else String.eqb f "arch/x86/Kconfig" || String.eqb f "arch/x86/defconfig" ||
       String.eqb f "arch/x86/configs".

Definition setenv (k v : string) (w : toy_world) : toy_world :=
  if String.eqb k "ARCH" then
    mkToy (val_a w) (val_b w) (dot_config w) (my_config w) (tool_output w) v
          (fail_log w)
  else w.

Definition log_write (text : string) (w : toy_world) : toy_world :=
  mkToy (val_a w) (val_b w) (dot_config w) (my_config w) (tool_output w)
        (env_arch w) (fail_log w ++ [text]).

Definition kernel : Kernel := {|
  World := toy_world;
  Conf := string;
  Sym := sym;
  Choice := unit;
  Loc := nat;
  sym_is := fun a b => match a, b with
                       | SymA, SymA | SymB, SymB => true
                       | _, _ => false
                       end;
  new_Config := fun w => (env_arch w, w);
  conf_get_arch := fun c => c;
  conf_iter := fun _ _ => [SymB; SymA];
  conf_get_symbols := fun _ _ => [SymB; SymA];
  conf_get_choices := fun _ _ => [];
  conf_reset := fun _ => reset;
  conf_write_config := fun _ => write_config;
  conf_load_config := fun _ _ w => w;
  conf_eval := fun _ _ s => Expr.eval s;
  sym_is_choice_item := fun _ _ => false;
  sym_get_lower_bound := get_lower_bound;
  sym_get_upper_bound := get_upper_bound;
  sym_calc_value := calc_value;
  sym_set_value := set_value;
  sym_reset := fun _ w => w;
  sym_get_name := fun _ s => match s with SymA => "A" | SymB => "B" end;
  sym_is_special := fun _ _ => false;
  sym_is_from_environment := fun _ _ => false;
  sym_is_defined := fun _ _ => true;
  sym_get_def_locations := fun _ _ => [1];
  sym_get_ref_locations := fun _ _ => [2];
  choice_get_visibility := fun _ _ => tri_n;
  choice_get_selection_from_defaults := fun _ _ => None;
  choice_get_user_selection := fun _ _ => None;
  choice_get_items := fun _ _ => [];
  os_listdir := fun _ _ => ["x86"; "h8300"];
  os_path_exists := path_exists;
  os_path_isdir := fun _ _ => true;
  os_walk := fun _ d => [(d, [], ["a_defconfig"])];
  os_remove := remove;
  os_setenv := setenv;
  os_unsetenv := fun _ w => w;
  shell := fun _ => run_shell;
  readlines := read;
  open_append := fun _ w => w;
  file_write := fun _ => log_write;
  strftime_now := fun _ => "01 Jan 2011 00:00:00"
|}.

(** The tree before the suite starts; the reference tool answers every
    request with the all-no configuration. *)
Definition w0 : toy_world :=
  mkToy tri_y tri_y None None
        [render_sym "B" tri_n; render_sym "A" tri_n] EmptyString [].

End Toy.

(** ** The words of the claims, as definitions *)

Fixpoint all_word (s : string) : bool :=
  match s with
  | EmptyString => true
  | String c s' => is_word c && all_word s'
  end.

Section Statements.
Context {K : Kernel}.

(** A pass over [syms] described by what it does to each symbol in turn: a
    symbol that is [eligible], has a [bound] and for which [wants bound
    value] holds is set to the bound; every other symbol is left alone.  The
    flag tells whether no symbol was set. *)
Inductive bound_run (eligible : World -> Sym -> bool)
          (bound : World -> Sym -> option tristate)
          (wants : tristate -> tristate -> bool)
  : list Sym -> World -> World -> bool -> Prop :=
| bound_run_nil w :
    bound_run eligible bound wants [] w w true
| bound_run_set sym syms w w' d b :
    eligible w sym = true ->
    bound w sym = Some b ->
    wants b (sym_calc_value w sym) = true ->
    bound_run eligible bound wants syms (sym_set_value sym b w) w' d ->
    bound_run eligible bound wants (sym :: syms) w w' false
| bound_run_skip sym syms w w' d :
    (eligible w sym = false \/ bound w sym = None \/
     exists b, bound w sym = Some b /\ wants b (sym_calc_value w sym) = false) ->
    bound_run eligible bound wants syms w w' d ->
    bound_run eligible bound wants (sym :: syms) w w' d.

Definition not_choice_item (w : World) (sym : Sym) : bool :=
  negb (sym_is_choice_item w sym).

(** The visit that [bound_run] describes, as a function; [all_no_visit] and
    [all_yes_visit] are two instances of it. *)
Definition bound_visit (eligible : World -> Sym -> bool)
           (bound : World -> Sym -> option tristate)
           (wants : tristate -> tristate -> bool)
           (sym : Sym) (st : World * bool) : World * bool :=
  let (w, done) := st in
  if eligible w sym then
    match bound w sym with
    | Some b =>
        if wants b (sym_calc_value w sym)
        then (sym_set_value sym b w, false)
        else (w, done)
    | None => (w, done)
    end
  else (w, done).

(** The all-no pass as amended: the lower bound is strictly below the
    value. *)
Definition all_no_lowers : list Sym -> World -> World -> bool -> Prop :=
  bound_run not_choice_item sym_get_lower_bound
            (fun lower_bound value => tri_less lower_bound value).

(** The all-no pass in the words of the specification: "a lower bound is
    defined and is strictly greater than the current value". *)
Definition all_no_as_stated : list Sym -> World -> World -> bool -> Prop :=
  bound_run not_choice_item sym_get_lower_bound
            (fun lower_bound value => tri_less value lower_bound).





End Statements.

(** ** What a run leaves behind, for the statements about [run_tests] *)

Section Reports.
Context {K : Kernel}.

(** The ledger between two states: [fail()] was called some more times, and
    [_all_ok] still holds exactly when it held before and [fail()] was not
    called in between. *)
Definition led (s s' : State) : Prop :=
  fail_calls s <= fail_calls s' /\
  (_all_ok s' = true <-> _all_ok s = true /\ fail_calls s' = fail_calls s).

(** [led] for every outcome of a computation that has one. *)
Definition led_ok {A} (m : M A) : Prop :=
  forall s, match m s with
            | Ret _ s' | Raise _ s' => led s s'
            | OutOfFuel => True
            end.

(** From [s] to [s']: [k] more arch/defconfig pairs counted, [out] written
    to the standard output, and the ledger moved as [led] says. *)
Definition eff (s s' : State) (k : nat) (out : list string) : Prop :=
  nconfigs s' = nconfigs s + k /\
  stdout s' = stdout s ++ out /\
  led s s'.

(** What [print "OK"] and [print "FAIL"] write. *)
Definition verdict_line (v : bool) : string :=
  (if v then "OK" else "FAIL") +++ nl.

Definition is_verdict (x : string) : bool :=
  String.eqb x ("OK" +++ nl) || String.eqb x ("FAIL" +++ nl).

(** The number of verdicts in an output. *)
Definition verdicts (out : list string) : nat :=
  List.length (filter is_verdict out).

(** What [summary] writes in state [s]. *)
Definition summary_report (s : State) : list string :=
  if _all_ok s
  then ["All OK" +++ nl;
        (str_nat (nconfigs s) +++ " arch/defconfig pairs tested") +++ nl]
  else ["Some tests failed" +++ nl].


(** What [test_defconfig] writes for an arch/defconfig pair, given the
    verdict; for an architecture, given the warnings of the enumeration and
    the verdicts; and what [run_test] writes for the whole replay scenario. *)
Definition trial_report (conf : Conf) (dv : string * bool) : list string :=
  [defconfig_progress conf (fst dv); verdict_line (snd dv)].

Definition arch_report (snapshots warnings : list string)
           (cvs : Conf * list bool) : list string :=
  map (fun t => t +++ nl) warnings ++
  flat_map (trial_report (fst cvs)) (combine snapshots (snd cvs)).



(** Both snapshot files can be read. *)
Definition ready (w : World) : Prop :=
  readlines w ".config" <> None /\ readlines w "._config" <> None.

(** [m] returns from [s], with a result and a final state that satisfy
    [Q]. *)
Definition wp {A} (m : M A) (s : State) (Q : A -> State -> Prop) : Prop :=
  exists a s', m s = Ret a s' /\ Q a s'.


(** What the statements about a whole run ask of the collaborators: the
    fixed-point loops break within [fuel] passes; [write_config] leaves the
    file it writes; a shell command leaves [.config] behind and does not
    remove [._config]; and ["y && ARCH"] is an expression the engine
    evaluates. *)
Record well_behaved (fuel : nat) : Prop := {
  wb_all_no : forall conf w, all_no_loop fuel conf w <> None;
  wb_all_yes : forall conf w,
      all_yes_loop fuel conf (non_choice_syms conf w) w <> None;
  wb_write : forall conf w,
      readlines (conf_write_config conf "._config" w) "._config" <> None;
  wb_shell : forall cmd w,
      readlines w "._config" <> None -> ready (shell cmd w);
  wb_eval : forall w conf, conf_eval w conf "y && ARCH" = EvalOk
}.

(** What the enumeration of [test_defconfig] finds in a world: the
    defconfigs and the warnings. *)
Definition enumeration (w : World) : list string * list string :=
  (defconfigs_of w, flat_map (arch_warnings w) (os_listdir w "arch")).

(** The world in which [run_tests] starts, and the architectures it
    loads. *)
Definition start_world (w : World) : World :=
  os_unsetenv "KCONFIG_ALLCONFIG" (os_setenv "KERNELVERSION" "2" w).

Definition arch_configs (w : World) : list Conf :=
  fst (arch_configs_of (start_world w)).

(** The script up to the summary, for a list of tests: it returns the
    architectures. *)
Definition scenarios (tests : list arch_test) : M (list Conf) :=
  on_world (os_setenv "KERNELVERSION" "2") ;;
  on_world (os_unsetenv "KCONFIG_ALLCONFIG") ;;
  print "Loading Config instances for all architectures..." ;;
  archs <- get_arch_configs ;;
  for_each tests (run_test archs) ;;
  ret archs.


End Reports.

(** ** Variants of the small kernel tree

    The small tree with another listing of [arch/] and, if [tool_runs] is
    [false], a reference tool that leaves no [.config] behind. *)
Module Lab.

Definition run_shell (tool_runs : bool) (w : Toy.toy_world) : Toy.toy_world :=
  if tool_runs then Toy.run_shell w else Toy.remove ".config" w.

Definition kernel (dirs : list string) (tool_runs : bool) : Kernel := {|
  World := Toy.toy_world;
  Conf := string;
  Sym := Toy.sym;
  Choice := unit;
  Loc := nat;
  sym_is := @sym_is Toy.kernel;
  new_Config := fun w => (Toy.env_arch w, w);
  conf_get_arch := fun c => c;
  conf_iter := fun _ _ => [Toy.SymB; Toy.SymA];
  conf_get_symbols := fun _ _ => [Toy.SymB; Toy.SymA];
  conf_get_choices := fun _ _ => [];
  conf_reset := fun _ => Toy.reset;
  conf_write_config := fun _ => Toy.write_config;
  conf_load_config := fun _ _ w => w;
  conf_eval := fun _ _ s => Expr.eval s;
  sym_is_choice_item := fun _ _ => false;
  sym_get_lower_bound := Toy.get_lower_bound;
  sym_get_upper_bound := Toy.get_upper_bound;
  sym_calc_value := Toy.calc_value;
  sym_set_value := Toy.set_value;
  sym_reset := fun _ w => w;
  sym_get_name := @sym_get_name Toy.kernel;
  sym_is_special := fun _ _ => false;
  sym_is_from_environment := fun _ _ => false;
  sym_is_defined := fun _ _ => true;
  sym_get_def_locations := fun _ _ => [1];
  sym_get_ref_locations := fun _ _ => [2];
  choice_get_visibility := fun _ _ => tri_n;
  choice_get_selection_from_defaults := fun _ _ => None;
  choice_get_user_selection := fun _ _ => None;
  choice_get_items := fun _ _ => [];
  os_listdir := fun _ _ => dirs;
  os_path_exists := Toy.path_exists;
  os_path_isdir := fun _ _ => true;
  os_walk := fun _ d => [(d, [], ["a_defconfig"])];
  os_remove := Toy.remove;
  os_setenv := Toy.setenv;
  os_unsetenv := fun _ w => w;
  shell := fun _ => run_shell tool_runs;
  readlines := Toy.read;
  open_append := fun _ w => w;
  file_write := fun _ => Toy.log_write;
  strftime_now := fun _ => "01 Jan 2011 00:00:00"
|}.

End Lab.

(** ** Further words for the statements of Part III *)

Section MoreStatements.
Context {K : Kernel}.

(** A choice on which the all-yes loop finds nothing to do: in "y" mode
    the selection from the defaults, if there is one, is the user's
    selection; in "m" mode every item is at ["m"] or has the upper bound
    ["n"]. *)
Definition choice_settled (w : World) (choice : Choice) : Prop :=
  (choice_get_visibility w choice = tri_y ->
   forall selection,
     choice_get_selection_from_defaults w choice = Some selection ->
     is_not_user_selection selection (choice_get_user_selection w choice)
     = false) /\
  (choice_get_visibility w choice = tri_m ->
   forall sym, In sym (choice_get_items w choice) ->
               sym_calc_value w sym = tri_m \/
               sym_get_upper_bound w sym = Some tri_n).




(** What the comments of the location checks of [test_call_all] ask for,
    negated: a special symbol from the environment without define locations;
    another special symbol that is undefined or has define locations; a
    symbol that is not special and has define locations exactly when it is
    not defined. *)
Definition locations_inconsistent (w : World) (sym : Sym) : bool :=
  if sym_is_special w sym then
    if sym_is_from_environment w sym
    then is_empty (sym_get_def_locations w sym)
    else negb (sym_is_defined w sym) ||
         negb (is_empty (sym_get_def_locations w sym))
  else
    if sym_is_defined w sym
    then is_empty (sym_get_def_locations w sym)
    else negb (is_empty (sym_get_def_locations w sym)).

(** A symbol that is not special, not defined and referenced nowhere. *)
Definition unreferenced (w : World) (sym : Sym) : bool :=
  negb (sym_is_special w sym) && negb (sym_is_defined w sym) &&
  is_empty (sym_get_ref_locations w sym).




(** The world in which [defconfig_trial] compares the snapshots: the old
    snapshots removed, the defconfig loaded and written by kconfiglib, copied
    to [.config] and run through the reference tool. *)
Definition trial_world (conf : Conf) (defconfig : string) (w : World) : World :=
  shell "make kconfiglibtestconfig"
    (shell ("cp " +++ defconfig +++ " .config")
       (conf_write_config conf "._config"
          (conf_load_config conf defconfig
             (rm_if_exists "._config" (rm_if_exists ".config" w))))).

End MoreStatements.

(* ===================================================================== *)
(** * Part II: theorems                                                     *)
(* ===================================================================== *)

(** ** The comparator *)

Lemma lines_eqb_eq (a b : list string) : lines_eqb a b = true <-> a = b.
Proof.
  revert b; induction a as [|x a IH]; intros [|y b]; simpl;
    try (split; [discriminate | discriminate]); try tauto.
  rewrite andb_true_iff, String.eqb_eq, IH.
  split; [intros [-> ->]; reflexivity | intros H; inversion H; auto].
Qed.

Lemma lines_eqb_sym (a b : list string) : lines_eqb a b = lines_eqb b a.
Proof.
  destruct (lines_eqb a b) eqn:E, (lines_eqb b a) eqn:E'; auto.
  - apply lines_eqb_eq in E; subst.
    rewrite (proj2 (lines_eqb_eq b b) eq_refl) in E'; discriminate.
  - apply lines_eqb_eq in E'; subst.
    rewrite (proj2 (lines_eqb_eq a a) eq_refl) in E; discriminate.
Qed.

Lemma equal_confs_lines_spec (l1 l2 : list string) :
  equal_confs_lines l1 l2 = true <-> skipn (header_len l1) l1 = l2.
Proof. apply lines_eqb_eq. Qed.

Lemma re_match_nil (s : string) : re_match [] s = true.
Proof. destruct s; reflexivity. Qed.

Lemma re_match_lit_cons (c d : ascii) (p : list re_item) (s : string) :
  re_match (ReLit c :: p) (String d s) = Ascii.eqb c d && re_match p s.
Proof. reflexivity. Qed.

Lemma re_match_lit_empty (c : ascii) (p : list re_item) :
  re_match (ReLit c :: p) EmptyString = false.
Proof. reflexivity. Qed.

Lemma re_match_lits (lit : string) (p : list re_item) (s : string) :
  re_match (re_lits lit ++ p) s = true <->
  exists s', s = lit +++ s' /\ re_match p s' = true.
Proof.
  revert s; induction lit as [|c lit IH]; intros s.
  - simpl. split; [intros H; exists s; auto | intros (s' & -> & H); exact H].
  - change (re_lits (String c lit) ++ p) with (ReLit c :: (re_lits lit ++ p)).
    destruct s as [|d s].
    + rewrite re_match_lit_empty.
      split; [discriminate | intros (s' & H & _); discriminate].
    + rewrite re_match_lit_cons, andb_true_iff, Ascii.eqb_eq, IH. split.
      * intros [-> (s' & -> & H)]. exists s'; auto.
      * intros (s' & H & Hp). inversion H; subst. split; eauto.
Qed.

Lemma re_match_word_plus (lit : string) (s : string) :
  re_match (ReWordPlus :: re_lits lit) s = true <->
  exists name rest,
    name <> EmptyString /\ all_word name = true /\ s = name +++ lit +++ rest.
Proof.
  split.
  - induction s as [|d s IH]; [discriminate|].
    change (re_match (ReWordPlus :: re_lits lit) (String d s))
      with (is_word d && (re_match (ReWordPlus :: re_lits lit) s ||
                          re_match (re_lits lit) s)).
    rewrite andb_true_iff, orb_true_iff. intros [Hd [H|H]].
    + destruct (IH H) as (name & rest & Hn & Hw & ->).
      exists (String d name), rest. cbn [all_word String.append].
      rewrite Hd, Hw. repeat split; congruence.
    + rewrite <- (app_nil_r (re_lits lit)) in H.
      apply re_match_lits in H. destruct H as (rest & -> & _).
      exists (String d EmptyString), rest. cbn [all_word String.append].
      rewrite Hd. repeat split; congruence.
  - intros (name & rest & Hn & Hw & ->).
    induction name as [|d name IH]; [congruence|].
    cbn [all_word] in Hw. apply andb_true_iff in Hw. destruct Hw as [Hd Hw].
    cbn [String.append].
    change (re_match (ReWordPlus :: re_lits lit) (String d (name +++ lit +++ rest)))
      with (is_word d && (re_match (ReWordPlus :: re_lits lit) (name +++ lit +++ rest) ||
                          re_match (re_lits lit) (name +++ lit +++ rest))).
    rewrite Hd. cbn [andb]. apply orb_true_iff.
    destruct name as [|e name].
    + right. cbn [String.append]. rewrite <- (app_nil_r (re_lits lit)).
      apply re_match_lits. exists rest. split; auto. apply re_match_nil.
    + left. apply IH; [discriminate | exact Hw].
Qed.

(** What [re.match(unset_re, line)] accepts: the lines that begin with
    [# CONFIG_], a name and [ is not set]; anything may follow. *)
Lemma unset_re_match (line : string) :
  re_match unset_re line = true <->
  exists name rest,
    name <> EmptyString /\ all_word name = true /\
    line = "# CONFIG_" +++ name +++ " is not set" +++ rest.
Proof.
  unfold unset_re. rewrite re_match_lits. split.
  - intros (s' & -> & H).
    change ([ReWordPlus] ++ re_lits " is not set")
      with (ReWordPlus :: re_lits " is not set") in H.
    apply re_match_word_plus in H. destruct H as (name & rest & Hn & Hw & ->).
    exists name, rest. auto.
  - intros (name & rest & Hn & Hw & ->).
    exists (name +++ " is not set" +++ rest). split; [reflexivity|].
    change ([ReWordPlus] ++ re_lits " is not set")
      with (ReWordPlus :: re_lits " is not set").
    apply re_match_word_plus. exists name, rest. auto.
Qed.

Lemma header_len_firstn (l1 : list string) :
  Forall (fun line => header_stop line = false) (firstn (header_len l1) l1).
Proof.
  induction l1 as [|line rest IH]; simpl; [constructor|].
  destruct (header_stop line) eqn:E; simpl; [constructor|].
  constructor; assumption.
Qed.

Lemma header_len_stop (l1 : list string) :
  match nth_error l1 (header_len l1) with
  | Some line => header_stop line = true
  | None => header_len l1 = List.length l1
  end.
Proof.
  induction l1 as [|line rest IH]; simpl; [reflexivity|].
  destruct (header_stop line) eqn:E; simpl; [exact E|].
  destruct (nth_error rest (header_len rest)); [exact IH | congruence].
Qed.

Lemma header_stop_iff (line : string) :
  header_stop line = false <->
  startswith "#" line = true /\ re_match unset_re line = false.
Proof.
  unfold header_stop.
  destruct (startswith "#" line), (re_match unset_re line); simpl; intuition congruence.
Qed.

(** C3 (amended): the comparator strips a header from the reference only;
    on two snapshots that carry no header (neither starts with a comment
    line other than an "is not set" line) the verdict does not depend on
    which of them is the reference. *)
Theorem equal_confs_symmetric_without_header (A B : list string) :
  header_len A = 0 -> header_len B = 0 ->
  equal_confs_lines A B = equal_confs_lines B A.
Proof.
  intros HA HB. unfold equal_confs_lines. rewrite HA, HB. simpl.
  apply lines_eqb_sym.
Qed.

Lemma equal_confs_symmetric_witness :
  header_len ["# CONFIG_FOO is not set" +++ nl; "BAR=y" +++ nl] = 0 /\
  header_len ["BAR=y" +++ nl] = 0 /\
  equal_confs_lines ["# CONFIG_FOO is not set" +++ nl; "BAR=y" +++ nl]
                    ["BAR=y" +++ nl] =
  equal_confs_lines ["BAR=y" +++ nl]
                    ["# CONFIG_FOO is not set" +++ nl; "BAR=y" +++ nl].
Proof.
  split; [reflexivity | split; [reflexivity |]].
  apply (equal_confs_symmetric_without_header
           ["# CONFIG_FOO is not set" +++ nl; "BAR=y" +++ nl] ["BAR=y" +++ nl]);
    reflexivity.
Defined.

(** C3, as stated, fails: a reference with a one-line header is equal to
    its body, but the body taken as the reference is not equal to it. *)
Lemma equal_confs_not_symmetric :
  equal_confs_lines ["# Linux kernel configuration" +++ nl; "BAR=y" +++ nl]
                    ["BAR=y" +++ nl] = true /\
  equal_confs_lines ["BAR=y" +++ nl]
                    ["# Linux kernel configuration" +++ nl; "BAR=y" +++ nl] = false.
Proof. split; reflexivity. Qed.

(** C4 (amended): the lines the comparator skips are the leading lines of
    the reference that are comments and do not begin with
    [# CONFIG_<name> is not set] (a non-empty name of word characters;
    anything may follow on the line); it stops at the first line that is not
    a comment or begins so; the verdict is the equality of what is left of the
    reference with the whole candidate; and the reference with three comment
    lines before [# CONFIG_FOO is not set] and [BAR=y] equals the candidate
    made of these two lines. *)
Theorem equal_confs_skips_header (l1 l2 : list string) :
  Forall (fun line => startswith "#" line = true /\
                      re_match unset_re line = false)
         (firstn (header_len l1) l1) /\
  match nth_error l1 (header_len l1) with
  | Some line => startswith "#" line = false \/ re_match unset_re line = true
  | None => header_len l1 = List.length l1
  end /\
  (forall line,
      re_match unset_re line = true <->
      exists name rest,
        name <> EmptyString /\ all_word name = true /\
        line = "# CONFIG_" +++ name +++ " is not set" +++ rest) /\
  (equal_confs_lines l1 l2 = true <-> skipn (header_len l1) l1 = l2) /\
  equal_confs_lines
    ["#" +++ nl; "# Automatically generated make config: don't edit" +++ nl;
     "# Linux kernel version: 2.6.38" +++ nl;
     "# CONFIG_FOO is not set" +++ nl; "BAR=y" +++ nl]
    ["# CONFIG_FOO is not set" +++ nl; "BAR=y" +++ nl] = true.
Proof.
  split; [|split; [|split; [|split]]].
  - eapply Forall_impl; [|apply header_len_firstn].
    intros line H. apply header_stop_iff, H.
  - pose proof (header_len_stop l1) as H.
    destruct (nth_error l1 (header_len l1)); [|exact H].
    unfold header_stop in H. apply orb_true_iff in H.
    destruct H as [H|H]; [left; apply negb_true_iff, H | right; exact H].
  - apply unset_re_match.
  - apply equal_confs_lines_spec.
  - reflexivity.
Qed.

(** C4, as stated, fails: a comment that goes on after [is not set] is not
    of the exact form, so the claim has it skipped and the two snapshots
    equal; the comparator stops at it and reports them unequal. *)
Lemma equal_confs_prefix_not_exact_form :
  startswith "#" ("# CONFIG_FOO is not set up" +++ nl) = true /\
  exact_unset_form ("# CONFIG_FOO is not set up" +++ nl) = false /\
  skipn (spec_header_len ["# CONFIG_FOO is not set up" +++ nl; "BAR=y" +++ nl])
        ["# CONFIG_FOO is not set up" +++ nl; "BAR=y" +++ nl] = ["BAR=y" +++ nl] /\
  equal_confs_lines ["# CONFIG_FOO is not set up" +++ nl; "BAR=y" +++ nl]
                    ["BAR=y" +++ nl] = false.
Proof. repeat split; reflexivity. Qed.

(** ** The fixed-point loops *)

Section ResolverFacts.
Context {K : Kernel}.

Lemma bound_run_fold eligible bound wants syms w w' d :
  bound_run eligible bound wants syms w w' d ->
  forall d0,
    fold_left (fun st sym => bound_visit eligible bound wants sym st) syms (w, d0)
    = (w', d0 && d).
Proof.
  induction 1 as [w | sym syms w w' d b He Hb Hw _ IH | sym syms w w' d Hs _ IH];
    intros d0; simpl.
  - rewrite andb_true_r; reflexivity.
  - rewrite He, Hb, Hw, IH. rewrite andb_false_r; reflexivity.
  - destruct Hs as [He | [Hb | (b & Hb & Hw)]].
    + rewrite He. apply IH.
    + destruct (eligible w sym); rewrite ?Hb; apply IH.
    + destruct (eligible w sym); rewrite ?Hb, ?Hw; apply IH.
Qed.

Lemma bound_run_total eligible bound wants syms w :
  exists w' d, bound_run eligible bound wants syms w w' d.
Proof.
  revert w; induction syms as [|sym syms IH]; intros w.
  - exists w, true; constructor.
  - destruct (eligible w sym) eqn:He.
    + destruct (bound w sym) as [b|] eqn:Hb.
      * destruct (wants b (sym_calc_value w sym)) eqn:Hw.
        -- destruct (IH (sym_set_value sym b w)) as (w' & d & H).
           exists w', false. eapply bound_run_set; eauto.
        -- destruct (IH w) as (w' & d & H). exists w', d.
           apply bound_run_skip; eauto.
      * destruct (IH w) as (w' & d & H). exists w', d.
        apply bound_run_skip; auto.
    + destruct (IH w) as (w' & d & H). exists w', d.
      apply bound_run_skip; auto.
Qed.

Lemma bound_run_iff eligible bound wants syms w w' d :
  fold_left (fun st sym => bound_visit eligible bound wants sym st) syms (w, true)
  = (w', d) <->
  bound_run eligible bound wants syms w w' d.
Proof.
  split.
  - intros H. destruct (bound_run_total eligible bound wants syms w) as (w1 & d1 & R).
    rewrite (bound_run_fold _ _ _ _ _ _ _ R true) in H. simpl in H.
    inversion H; subst; exact R.
  - intros R. apply (bound_run_fold _ _ _ _ _ _ _ R true).
Qed.

(** C1 (amended): a pass of the all-no loop sets a symbol to its lower
    bound exactly when the symbol is not a choice item, the lower bound is
    defined and it is strictly below the symbol's value at that moment; it
    calls [set_value] on nothing else, and its flag says whether it set no
    symbol. *)
Theorem all_no_pass_lowers (conf : Conf) (w w' : World) (d : bool) :
  all_no_pass conf w = (w', d) <-> all_no_lowers (conf_iter w conf) w w' d.
Proof. apply bound_run_iff. Qed.


End ResolverFacts.

(** C1, as stated, fails: in the small tree, [A] is at [y] and its lower
    bound [m] is not strictly greater, yet the pass sets [A] (its flag is
    [False]); a pass that sets symbols only when the lower bound is strictly
    greater sets nothing here. *)
Lemma all_no_pass_not_as_stated :
  snd (@all_no_pass Toy.kernel "x86" Toy.w0) = false /\
  ~ @all_no_as_stated Toy.kernel [Toy.SymB; Toy.SymA] Toy.w0
      (fst (@all_no_pass Toy.kernel "x86" Toy.w0))
      (snd (@all_no_pass Toy.kernel "x86" Toy.w0)).
Proof.
  split; [reflexivity|].
  intros H. apply bound_run_iff in H. vm_compute in H. discriminate H.
Qed.


Section Convergence.
Context {K : Kernel}.








End Convergence.





(** ** The ledger *)

Section Ledger.
Context {K : Kernel}.

Lemma led_refl (s : State) : led s s.
Proof. unfold led. intuition lia. Qed.

Lemma led_trans (s1 s2 s3 : State) : led s1 s2 -> led s2 s3 -> led s1 s3.
Proof. unfold led. intros [H1 H1'] [H2 H2']. split; [lia|]. rewrite H2', H1'. intuition lia. Qed.

Lemma led_same (s s' : State) :
  _all_ok s' = _all_ok s -> fail_calls s' = fail_calls s -> led s s'.
Proof. unfold led. intros -> ->. intuition lia. Qed.

Lemma led_ok_ret {A} (a : A) : led_ok (ret a).
Proof. intros s. apply led_refl. Qed.

Lemma led_ok_bind {A B} (m : M A) (f : A -> M B) :
  led_ok m -> (forall a, led_ok (f a)) -> led_ok (bind m f).
Proof.
  intros Hm Hf s. unfold bind. specialize (Hm s).
  destruct (m s) as [a s1 | e s1 |]; auto.
  specialize (Hf a s1). destruct (f a s1); auto; eapply led_trans; eauto.
Qed.

Lemma led_ok_try_except {A} (m : M A) (e : exn) (h : M A) :
  led_ok m -> led_ok h -> led_ok (try_except m e h).
Proof.
  intros Hm Hh s. unfold try_except. specialize (Hm s).
  destruct (m s) as [a s1 | e' s1 |]; auto.
  destruct e, e'; auto; specialize (Hh s1); destruct (h s1); auto;
    eapply led_trans; eauto.
Qed.

Lemma led_ok_for_each {X} (l : list X) (body : X -> M unit) :
  (forall x, led_ok (body x)) -> led_ok (for_each l body).
Proof.
  intros Hb. induction l as [|x l IH]; simpl.
  - apply led_ok_ret.
  - apply led_ok_bind; auto.
Qed.

Lemma led_ok_gets {A} (f : World -> A) : led_ok (gets f).
Proof. intros s. apply led_refl. Qed.

Lemma led_ok_on_world (f : World -> World) : led_ok (on_world f).
Proof. intros s. apply led_same; reflexivity. Qed.

Lemma led_ok_stdout_write (text : string) : led_ok (stdout_write text).
Proof. intros s. apply led_same; reflexivity. Qed.

Lemma led_ok_print (text : string) : led_ok (print text).
Proof. apply led_ok_stdout_write. Qed.

Lemma led_ok_fail : led_ok fail.
Proof. intros s. unfold led; simpl. intuition (lia || congruence). Qed.

Lemma led_ok_all_ok : led_ok all_ok.
Proof. intros s. apply led_refl. Qed.

Lemma led_ok_incr_nconfigs : led_ok incr_nconfigs.
Proof. intros s. apply led_same; reflexivity. Qed.

Lemma led_ok_open_readlines (name : string) : led_ok (open_readlines name).
Proof.
  intros s. unfold open_readlines. destruct (readlines (world s) name); apply led_refl.
Qed.

Lemma led_ok_conf_eval_m (conf : Conf) (e : string) : led_ok (conf_eval_m conf e).
Proof.
  intros s. unfold conf_eval_m. destruct (conf_eval (world s) conf e); apply led_refl.
Qed.

Lemma led_ok_run_loop (loop : World -> option (World * nat)) : led_ok (run_loop loop).
Proof.
  intros s. unfold run_loop. destruct (loop (world s)) as [[w' p]|]; [|exact I].
  apply led_same; reflexivity.
Qed.

Lemma led_ok_get_arch_configs : led_ok get_arch_configs.
Proof.
  intros s. unfold get_arch_configs. destruct (arch_configs_of (world s)).
  apply led_same; reflexivity.
Qed.

Lemma led_ok_when (b : bool) (m : M unit) : led_ok m -> led_ok (when b m).
Proof. intros H. destruct b; [exact H | apply led_ok_ret]. Qed.

Lemma led_ok_if {A} (b : bool) (m1 m2 : M A) :
  led_ok m1 -> led_ok m2 -> led_ok (if b then m1 else m2).
Proof. destruct b; auto. Qed.

Create HintDb led.
#[local] Hint Resolve led_ok_ret led_ok_bind led_ok_try_except led_ok_for_each
  led_ok_gets led_ok_on_world led_ok_stdout_write led_ok_print led_ok_fail
  led_ok_all_ok led_ok_incr_nconfigs led_ok_open_readlines led_ok_conf_eval_m
  led_ok_run_loop led_ok_get_arch_configs led_ok_when led_ok_if : led.

Lemma led_ok_rm_configs : led_ok rm_configs.
Proof. unfold rm_configs. auto with led. Qed.

Lemma led_ok_shell_m (cmd : string) : led_ok (shell_m cmd).
Proof. apply led_ok_on_world. Qed.

Lemma led_ok_equal_confs : led_ok equal_confs.
Proof. unfold equal_confs. auto 10 with led. Qed.

#[local] Hint Resolve led_ok_rm_configs led_ok_shell_m led_ok_equal_confs : led.

Lemma led_ok_test_all_no (fuel : nat) (conf : Conf) : led_ok (test_all_no fuel conf).
Proof. unfold test_all_no. auto 10 with led. Qed.

Lemma led_ok_test_all_yes (fuel : nat) (conf : Conf) : led_ok (test_all_yes fuel conf).
Proof. unfold test_all_yes. auto 10 with led. Qed.

Lemma led_ok_test_config_absent (conf : Conf) : led_ok (test_config_absent conf).
Proof. unfold test_config_absent. auto 10 with led. Qed.

Lemma led_ok_syntax_error_check (conf : Conf) : led_ok (syntax_error_check conf).
Proof. unfold syntax_error_check. auto 10 with led. Qed.

Lemma led_ok_location_checks (s : Sym) : led_ok (location_checks s).
Proof. unfold location_checks. auto 20 with led. Qed.

#[local] Hint Resolve led_ok_syntax_error_check led_ok_location_checks : led.

Lemma led_ok_test_call_all (conf : Conf) : led_ok (test_call_all conf).
Proof. unfold test_call_all. auto 20 with led. Qed.

Lemma led_ok_collect_defconfigs : led_ok collect_defconfigs.
Proof. unfold collect_defconfigs. auto 10 with led. Qed.

#[local] Hint Resolve led_ok_collect_defconfigs : led.

Lemma led_ok_defconfig_trial (conf : Conf) (d : string) :
  led_ok (defconfig_trial conf d).
Proof. unfold defconfig_trial. auto 30 with led. Qed.

#[local] Hint Resolve led_ok_defconfig_trial : led.

Lemma led_ok_test_defconfig (conf : Conf) : led_ok (test_defconfig conf).
Proof. unfold test_defconfig. auto 10 with led. Qed.

Lemma led_ok_all_arch_tests (fuel : nat) :
  Forall (fun t => forall conf, led_ok (test_fn t conf)) (all_arch_tests fuel).
Proof.
  unfold all_arch_tests.
  repeat (apply Forall_cons; [simpl; intros conf|]); [| | | | |apply Forall_nil].
  - apply led_ok_test_all_no.
  - apply led_ok_test_config_absent.
  - apply led_ok_test_all_yes.
  - apply led_ok_test_call_all.
  - apply led_ok_test_defconfig.
Qed.

Lemma led_ok_compare_step (conf : Conf) : led_ok (compare_step conf).
Proof. unfold compare_step. auto 20 with led. Qed.

#[local] Hint Resolve led_ok_compare_step : led.

Lemma led_ok_run_test (archs : list Conf) (t : arch_test) :
  (forall conf, led_ok (test_fn t conf)) -> led_ok (run_test archs t).
Proof. intros Ht. unfold run_test, run_arch. auto 20 with led. Qed.

Lemma led_ok_state_dep {A B} (g : State -> A) (f : A -> M B) :
  (forall a, led_ok (f a)) -> led_ok (fun s => f (g s) s).
Proof. intros H s. apply (H (g s) s). Qed.

Lemma led_ok_summary : led_ok summary.
Proof.
  unfold summary. apply led_ok_bind; [apply led_ok_all_ok|].
  intros [|]; [|apply led_ok_print].
  apply led_ok_bind; [apply led_ok_print|]. intros _.
  apply (led_ok_state_dep nconfigs
           (fun k => print (str_nat k +++ " arch/defconfig pairs tested"))).
  intros k. apply led_ok_print.
Qed.

Lemma led_ok_tests (archs : list Conf) (tests : list arch_test) :
  Forall (fun t => forall conf, led_ok (test_fn t conf)) tests ->
  led_ok (for_each tests (run_test archs)).
Proof.
  induction 1 as [|t tests Ht _ IH]; simpl.
  - apply led_ok_ret.
  - apply led_ok_bind; [apply led_ok_run_test, Ht | intros _; exact IH].
Qed.

Lemma led_ok_run_tests (fuel : nat) : led_ok (run_tests fuel).
Proof.
  unfold run_tests.
  apply led_ok_bind; [apply led_ok_print | intros _].
  apply led_ok_bind; [apply led_ok_get_arch_configs | intros archs].
  apply led_ok_bind; [|intros _; apply led_ok_summary].
  apply led_ok_tests, led_ok_all_arch_tests.
Qed.

End Ledger.

(** ** Running the suite: weakest preconditions for computations that
    return *)

Section Wp.
Context {K : Kernel}.

Lemma wp_ret {A} (a : A) (s : State) (Q : A -> State -> Prop) :
  Q a s -> wp (ret a) s Q.
Proof. intros H. exists a, s. split; [reflexivity | exact H]. Qed.

Lemma wp_bind {A B} (m : M A) (f : A -> M B) (s : State)
      (Q : B -> State -> Prop) :
  wp m s (fun a s1 => wp (f a) s1 Q) -> wp (bind m f) s Q.
Proof.
  intros (a & s1 & Hm & b & s2 & Hf & HQ). exists b, s2.
  unfold bind. rewrite Hm. auto.
Qed.

Lemma wp_mono {A} (m : M A) (s : State) (Q Q' : A -> State -> Prop) :
  wp m s Q -> (forall a s', Q a s' -> Q' a s') -> wp m s Q'.
Proof. intros (a & s' & Hm & HQ) H. exists a, s'. auto. Qed.

Lemma eff_intro (s s' : State) k out :
  nconfigs s' = nconfigs s + k -> stdout s' = stdout s ++ out -> led s s' ->
  eff s s' k out.
Proof. unfold eff; auto. Qed.

Lemma eff_refl (s : State) : eff s s 0 [].
Proof.
  apply eff_intro; [lia | rewrite app_nil_r; reflexivity | apply led_refl].
Qed.

Lemma eff_trans (s s1 s2 : State) k1 k2 o1 o2 :
  eff s s1 k1 o1 -> eff s1 s2 k2 o2 -> eff s s2 (k1 + k2) (o1 ++ o2).
Proof.
  unfold eff. intros (N1 & O1 & L1) (N2 & O2 & L2). apply eff_intro.
  - lia.
  - rewrite O2, O1, app_assoc. reflexivity.
  - eapply led_trans; eauto.
Qed.

Lemma eff_eq (s s' : State) k k' o o' :
  eff s s' k o -> k = k' -> o = o' -> eff s s' k' o'.
Proof. intros H -> ->. exact H. Qed.

Lemma wp_gets {A} (f : World -> A) (s : State) (Q : A -> State -> Prop) :
  Q (f (world s)) s -> wp (gets f) s Q.
Proof. intros H. eexists _, _. split; [reflexivity | exact H]. Qed.

Lemma wp_on_world (f : World -> World) (s : State) (Q : unit -> State -> Prop) :
  (forall s', eff s s' 0 [] -> world s' = f (world s) -> Q tt s') ->
  wp (on_world f) s Q.
Proof.
  intros H. eexists _, _. split; [reflexivity|]. apply H; [|reflexivity].
  apply eff_intro; simpl;
    [lia | rewrite app_nil_r; reflexivity | apply led_same; reflexivity].
Qed.

Lemma wp_stdout_write (text : string) (s : State) (Q : unit -> State -> Prop) :
  (forall s', eff s s' 0 [text] -> world s' = world s -> Q tt s') ->
  wp (stdout_write text) s Q.
Proof.
  intros H. eexists _, _. split; [reflexivity|]. apply H; [|reflexivity].
  apply eff_intro; simpl; [lia | reflexivity | apply led_same; reflexivity].
Qed.

Lemma wp_print (text : string) (s : State) (Q : unit -> State -> Prop) :
  (forall s', eff s s' 0 [text +++ nl] -> world s' = world s -> Q tt s') ->
  wp (print text) s Q.
Proof. apply wp_stdout_write. Qed.

Lemma wp_fail (s : State) (Q : unit -> State -> Prop) :
  (forall s', eff s s' 0 [] -> world s' = world s -> _all_ok s' = false ->
              fail_calls s' = S (fail_calls s) -> Q tt s') ->
  wp fail s Q.
Proof.
  intros H. eexists _, _. split; [reflexivity|]. apply H; try reflexivity.
  apply eff_intro; simpl;
    [lia | rewrite app_nil_r; reflexivity | apply (led_ok_fail s)].
Qed.

Lemma wp_incr_nconfigs (s : State) (Q : unit -> State -> Prop) :
  (forall s', eff s s' 1 [] -> world s' = world s -> Q tt s') ->
  wp incr_nconfigs s Q.
Proof.
  intros H. eexists _, _. split; [reflexivity|]. apply H; [|reflexivity].
  apply eff_intro; simpl;
    [lia | rewrite app_nil_r; reflexivity | apply led_same; reflexivity].
Qed.

Lemma wp_equal_confs (s : State) (Q : bool -> State -> Prop) :
  ready (world s) -> (forall v, Q v s) -> wp equal_confs s Q.
Proof.
  intros [H1 H2] H. unfold equal_confs, bind, open_readlines, wp.
  destruct (readlines (world s) ".config") as [l1|]; [|congruence].
  destruct (readlines (world s) "._config") as [l2|]; [|congruence].
  eexists _, _. split; [reflexivity | apply H].
Qed.



Lemma wp_rm_configs (s : State) (Q : unit -> State -> Prop) :
  (forall s', eff s s' 0 [] -> Q tt s') -> wp rm_configs s Q.
Proof.
  intros H. unfold rm_configs.
  apply wp_bind, wp_on_world. intros s1 E1 _.
  apply wp_on_world. intros s2 E2 _. apply H.
  eapply eff_eq; [eapply eff_trans; eauto | reflexivity | reflexivity].
Qed.

(** A loop whose body counts [k] pairs and writes [outf x v] for some [v]
    with [P v]. *)
Lemma wp_for_each {X V} (body : X -> M unit) (P : V -> Prop) (k : nat)
      (outf : X * V -> list string) :
  (forall x s, wp (body x) s (fun _ s' => exists v, P v /\ eff s s' k (outf (x, v)))) ->
  forall l s (Q : unit -> State -> Prop),
    (forall s' vs, Forall P vs -> List.length vs = List.length l ->
                   eff s s' (k * List.length l) (flat_map outf (combine l vs)) ->
                   Q tt s') ->
    wp (for_each l body) s Q.
Proof.
  intros Hbody. induction l as [|x l IH]; intros s Q HQ; simpl.
  - apply wp_ret. apply (HQ s []); [constructor | reflexivity |].
    eapply eff_eq; [apply eff_refl | simpl; lia | reflexivity].
  - apply wp_bind. eapply wp_mono; [apply Hbody|].
    intros _ s1 (v & Pv & E1). apply IH. intros s2 vs Pvs Hlen E2.
    apply (HQ s2 (v :: vs)); [constructor; auto | simpl; lia |].
    eapply eff_eq; [eapply eff_trans; eauto | simpl; lia | reflexivity].
Qed.

End Wp.

Section Verdicts.
Context {K : Kernel}.




Lemma verdicts_cons_verdict (x : string) (l : list string) :
  is_verdict x = true -> verdicts (x :: l) = S (verdicts l).
Proof. intros H. unfold verdicts. simpl. rewrite H. reflexivity. Qed.

Lemma is_verdict_verdict_line (v : bool) : is_verdict (verdict_line v) = true.
Proof. destruct v; reflexivity. Qed.







End Verdicts.

(** ** The tests and the scenarios, for collaborators that behave *)

Ltac eff_compose :=
  first [ eassumption
        | apply eff_refl
        | eapply eff_trans; [eassumption | eff_compose] ].

Ltac eff_chain :=
  eapply eff_eq;
  [ eff_compose
  | try (simpl; lia)
  | try (simpl; rewrite ?app_nil_r; reflexivity) ].


Section Run.
Context {K : Kernel}.
Variable fuel : nat.
Hypothesis Hwb : well_behaved fuel.

Lemma ready_after_write_shell (conf : Conf) (cmd : string) (w : World) :
  ready (shell cmd (conf_write_config conf "._config" w)).
Proof. apply (wb_shell _ Hwb), (wb_write _ Hwb). Qed.










Lemma wp_try_eval (conf : Conf) (e : string) (s : State)
      (Q : bool -> State -> Prop) :
  (forall b, Q b s) ->
  wp (try_except (conf_eval_m conf e ;; ret false) Kconfig_Syntax_Error (ret true))
     s Q.
Proof.
  intros HQ. unfold wp, try_except, bind, conf_eval_m, ret.
  destruct (conf_eval (world s) conf e); eexists _, _; split;
    try reflexivity; apply HQ.
Qed.

Ltac wp_step :=
  cbv beta;
  lazymatch goal with
  | |- wp (bind (gets _) _) _ _ => apply wp_bind, wp_gets
  | |- wp (if ?b then _ else _) _ _ => destruct b
  | |- wp (bind (if ?b then _ else _) _) _ _ => destruct b
  | |- wp (print _) _ _ => apply wp_print; intros ? ? ?
  | |- wp fail _ _ => apply wp_fail; intros ? ? ? ? ?
  | |- wp (ret _) _ _ => apply wp_ret
  | |- wp (bind _ _) _ _ => apply wp_bind
  end.

Lemma wp_syntax_error_check (conf : Conf) (s : State) (Q : unit -> State -> Prop) :
  (forall s' out, eff s s' 0 out -> verdicts out = 0 -> world s' = world s ->
                  Q tt s') ->
  wp (syntax_error_check conf) s Q.
Proof.
  intros HQ. unfold syntax_error_check.
  apply wp_bind, wp_try_eval. intros [|]; simpl; repeat wp_step;
    (eapply HQ; [eff_chain | reflexivity | congruence]).
Qed.

Lemma wp_location_checks (sym : Sym) (s : State) (Q : unit -> State -> Prop) :
  (forall s' out, eff s s' 0 out -> verdicts out = 0 -> world s' = world s ->
                  Q tt s') ->
  wp (location_checks sym) s Q.
Proof.
  intros HQ. unfold location_checks, when. repeat wp_step;
    (eapply HQ; [eff_chain | reflexivity | congruence]).
Qed.





(** *** The replay scenario, for an enumeration that finds the same
    defconfigs and prints the same warnings in every world *)

Variables snapshots warnings : list string.
Hypothesis Henum : forall w, enumeration w = (snapshots, warnings).

Lemma wp_for_each_print (l : list string) (s : State) (Q : unit -> State -> Prop) :
  (forall s', eff s s' 0 (map (fun t => t +++ nl) l) -> world s' = world s ->
              Q tt s') ->
  wp (for_each l print) s Q.
Proof.
  revert s Q. induction l as [|t l IH]; intros s Q HQ; simpl.
  - apply wp_ret. apply HQ; [apply eff_refl | reflexivity].
  - apply wp_bind, wp_print. intros s1 E1 W1.
    apply IH. intros s2 E2 W2. apply HQ; [eff_chain | congruence].
Qed.


Lemma wp_defconfig_trial (conf : Conf) (d : string) (s : State) :
  wp (defconfig_trial conf d) s
     (fun _ s' => exists v : bool, True /\ eff s s' 1 (trial_report conf (d, v))).
Proof.
  unfold defconfig_trial, shell_m.
  apply wp_bind, wp_rm_configs. intros s1 E1.
  apply wp_bind, wp_incr_nconfigs. intros s2 E2 _.
  apply wp_bind, wp_on_world. intros s3 E3 _.
  apply wp_bind, wp_on_world. intros s4 E4 W4.
  apply wp_bind, wp_on_world. intros s5 E5 W5.
  apply wp_bind, wp_on_world. intros s6 E6 W6.
  apply wp_bind, wp_stdout_write. intros s7 E7 W7.
  apply wp_bind, wp_equal_confs.
  { rewrite W7, W6, W5, W4. apply (wb_shell _ Hwb).
    apply (ready_after_write_shell conf _ _). }
  intros [|].
  - apply wp_print. intros s8 E8 _. exists true. split; [exact I|].
    unfold trial_report. eff_chain.
  - apply wp_bind, wp_print. intros s8 E8 _.
    apply wp_bind, wp_gets.
    apply wp_bind, wp_on_world. intros s9 E9 _.
    apply wp_fail. intros s10 E10 _ _ _. exists false. split; [exact I|].
    unfold trial_report. eff_chain.
Qed.






(** *** The whole run *)

Lemma bind_Ret {A B} (m : M A) (f : A -> M B) (s : State) (a : A) (s1 : State) :
  m s = Ret a s1 -> bind m f s = f a s1.
Proof. intros H. unfold bind. rewrite H. reflexivity. Qed.

Lemma bind_assoc {A B C} (m : M A) (f : A -> M B) (g : B -> M C) (s : State) :
  bind (bind m f) g s = bind m (fun a => bind (f a) g) s.
Proof. unfold bind. destruct (m s); reflexivity. Qed.

Lemma bind_ext {A B} (m : M A) (f g : A -> M B) (s : State) :
  (forall a s1, f a s1 = g a s1) -> bind m f s = bind m g s.
Proof. intros H. unfold bind. destruct (m s); auto. Qed.



Lemma get_arch_configs_Ret (s : State) :
  get_arch_configs s
  = Ret (fst (arch_configs_of (world s)))
        (mkState (nconfigs s) (_all_ok s) (stdout s) (fail_calls s)
                 (snd (arch_configs_of (world s)))).
Proof. unfold get_arch_configs. destruct (arch_configs_of (world s)); reflexivity. Qed.



Lemma main_scenarios (w : World) :
  main fuel w = bind (scenarios (all_arch_tests fuel)) (fun _ => summary)
                     (init_state w).
Proof.
  unfold main, run_tests, scenarios.
  rewrite !bind_assoc. apply bind_ext. intros _ s1.
  rewrite !bind_assoc. apply bind_ext. intros _ s2.
  rewrite !bind_assoc. apply bind_ext. intros _ s3.
  rewrite !bind_assoc. apply bind_ext. intros archs s4.
  rewrite !bind_assoc. apply bind_ext. intros _ s5.
  reflexivity.
Qed.



Lemma summary_runs (s : State) :
  exists s', summary s = Ret tt s' /\
             eff s s' 0 (summary_report s) /\
             summary_report s' = summary_report s /\
             fail_calls s' = fail_calls s.
Proof.
  unfold summary, summary_report, all_ok, bind, print, stdout_write.
  destruct (_all_ok s) eqn:Eok; eexists; (split; [reflexivity|]);
    (split; [apply eff_intro; cbn [nconfigs stdout];
               [lia | rewrite <- ?app_assoc; reflexivity
               | apply led_same; reflexivity]
            | cbn [nconfigs _all_ok fail_calls]; rewrite Eok; auto]).
Qed.





(** *** The whole run, whatever the enumeration finds *)






End Run.

(** ** The results about [run_tests] *)

Section Results.
Context {K : Kernel}.

Lemma led_init_all_ok (w : World) (s' : State) :
  led (init_state w) s' -> (_all_ok s' = true <-> fail_calls s' = 0).
Proof. unfold led; simpl. intuition lia. Qed.






(** C10: the flag starts as [True]; [fail()] sets it to [False]; no test,
    and no run of [run_tests], whether it comes to its end or is ended by an
    exception, sets it back ([_all_ok] holds afterwards exactly when it held
    before and [fail()] was not called in between); and a run that comes to
    its end has written the summary last, ["All OK"] exactly when [fail()]
    was never called. *)
Theorem ledger_monotone (fuel : nat) (w : World) :
  _all_ok (init_state w) = true /\
  (forall s, exists s', fail s = Ret tt s' /\ _all_ok s' = false) /\
  Forall (fun t => forall conf, led_ok (test_fn t conf)) (all_arch_tests fuel) /\
  led_ok (run_tests fuel) /\
  match main fuel w with
  | Ret _ s' =>
      (exists s5, stdout s' = stdout s5 ++ summary_report s') /\
      (_all_ok s' = true <-> fail_calls s' = 0) /\
      (hd_error (summary_report s') = Some ("All OK" +++ nl) <->
       fail_calls s' = 0)
  | Raise _ s' => _all_ok s' = true <-> fail_calls s' = 0
  | OutOfFuel => True
  end.
Proof.
  split; [reflexivity|].
  split; [intros s; eexists; split; reflexivity|].
  split; [apply led_ok_all_arch_tests|].
  split; [apply led_ok_run_tests|].
  assert (Hled : match main fuel w with
                 | Ret _ s' | Raise _ s' => led (init_state w) s'
                 | OutOfFuel => True
                 end).
  { unfold main.
    apply (led_ok_bind (on_world (os_setenv "KERNELVERSION" "2"))).
    - apply led_ok_on_world.
    - intros _. apply led_ok_bind; [apply led_ok_on_world|].
      intros _. apply led_ok_run_tests. }
  pose proof (main_scenarios fuel w) as Hm.
  destruct (main fuel w) as [[] s' | e s' |];
    [| apply (led_init_all_ok w), Hled | exact I].
  pose proof (led_init_all_ok w s' Hled) as Hok.
  unfold bind in Hm.
  destruct (scenarios (all_arch_tests fuel) (init_state w)) as [archs s5 | |];
    try discriminate.
  destruct (summary_runs s5) as (s'' & R & (_ & O & _) & Hsum & _).
  rewrite R in Hm. injection Hm as <-.
  split; [exists s5; rewrite Hsum; exact O|].
  split; [exact Hok|].
  rewrite <- Hok. unfold summary_report.
  destruct (_all_ok s'); simpl; split; intros H; try reflexivity; discriminate.
Qed.

End Results.

(** ** The small kernel tree behaves *)

#[local] Existing Instance Toy.kernel.

Lemma toy_well_behaved : @well_behaved Toy.kernel 5.
Proof.
  constructor.
  - intros conf [a b dot my tool arch log].
    destruct a, b; vm_compute; discriminate.
  - intros conf [a b dot my tool arch log].
    destruct a, b; vm_compute; discriminate.
  - intros conf [a b dot my tool arch log]. vm_compute. discriminate.
  - intros cmd [a b dot my tool arch log] H. vm_compute in H.
    split; vm_compute; [discriminate | exact H].
  - intros w conf. vm_compute. reflexivity.
Qed.







(* ===================================================================== *)
(** * Part III: further properties of the suite                             *)
(* ===================================================================== *)

(** ** More on the comparator *)

Lemma header_len_app (h body : list string) :
  Forall (fun line => header_stop line = false) h ->
  header_len body = 0 ->
  header_len (h ++ body) = List.length h.
Proof.
  intros Hh Hb. induction Hh as [|line h Hl _ IH]; simpl; [exact Hb|].
  rewrite Hl, IH. reflexivity.
Qed.

Lemma header_len_skipn (l : list string) :
  header_len (skipn (header_len l) l) = 0.
Proof.
  induction l as [|line rest IH]; simpl; [reflexivity|].
  destruct (header_stop line) eqn:E; simpl; [rewrite E; reflexivity | exact IH].
Qed.

Lemma skipn_cons_nth_error {A} (n : nat) (l : list A) (x : A) (r : list A) :
  skipn n l = x :: r -> nth_error l n = Some x.
Proof.
  revert l; induction n as [|n IH]; intros [|y l] H; simpl in *;
    try discriminate; [inversion H; reflexivity | apply IH, H].
Qed.

(** X1: a header of ordinary comments in front of a body that does not
    itself start with one is ignored, whatever its length: the verdict is the
    equality of the body and the candidate. *)
Theorem equal_confs_ignores_header (h body l2 : list string) :
  Forall (fun line => startswith "#" line = true /\
                      re_match unset_re line = false) h ->
  header_len body = 0 ->
  (equal_confs_lines (h ++ body) l2 = true <-> body = l2).
Proof.
  intros Hh Hb. rewrite equal_confs_lines_spec, header_len_app; [| |exact Hb].
  - rewrite skipn_app, skipn_all, Nat.sub_diag. reflexivity.
  - eapply Forall_impl; [|exact Hh]. intros line H. apply header_stop_iff, H.
Qed.

Lemma equal_confs_ignores_header_witness :
  equal_confs_lines
    (["#" +++ nl; "# Linux kernel version: 2.6.38" +++ nl] ++
     ["CONFIG_A=y" +++ nl; "# CONFIG_B is not set" +++ nl])
    ["CONFIG_A=y" +++ nl; "# CONFIG_B is not set" +++ nl] = true <->
  ["CONFIG_A=y" +++ nl; "# CONFIG_B is not set" +++ nl]
  = ["CONFIG_A=y" +++ nl; "# CONFIG_B is not set" +++ nl].
Proof.
  apply (equal_confs_ignores_header
           ["#" +++ nl; "# Linux kernel version: 2.6.38" +++ nl]
           ["CONFIG_A=y" +++ nl; "# CONFIG_B is not set" +++ nl]).
  - repeat constructor.
  - reflexivity.
Defined.

(** X2: a candidate that starts with an ordinary comment (a header of its
    own) is equal to no reference at all. *)
Theorem candidate_with_header_never_equal (l1 : list string) (line : string)
        (l2 : list string) :
  startswith "#" line = true ->
  re_match unset_re line = false ->
  equal_confs_lines l1 (line :: l2) = false.
Proof.
  intros Hc Hm. destruct (equal_confs_lines l1 (line :: l2)) eqn:E; [|reflexivity].
  apply equal_confs_lines_spec, skipn_cons_nth_error in E.
  pose proof (header_len_stop l1) as Hs. rewrite E in Hs.
  unfold header_stop in Hs. rewrite Hc, Hm in Hs. discriminate.
Qed.

Lemma candidate_with_header_never_equal_witness :
  equal_confs_lines ["# generated" +++ nl; "CONFIG_A=y" +++ nl]
                    ["# generated" +++ nl; "CONFIG_A=y" +++ nl] = false.
Proof.
  apply (candidate_with_header_never_equal
           ["# generated" +++ nl; "CONFIG_A=y" +++ nl]
           ("# generated" +++ nl) ["CONFIG_A=y" +++ nl]); reflexivity.
Defined.

(** X3: the candidate a reference accepts is unique, carries no header, and
    is accepted by itself taken as the reference. *)
Theorem accepted_candidate_unique (A B : list string) :
  equal_confs_lines A B = true ->
  header_len B = 0 /\
  equal_confs_lines B B = true /\
  (forall C, equal_confs_lines A C = true -> C = B).
Proof.
  intros H. apply equal_confs_lines_spec in H. subst B.
  split; [apply header_len_skipn|]. split.
  - apply equal_confs_lines_spec. rewrite header_len_skipn. reflexivity.
  - intros C HC. apply equal_confs_lines_spec in HC. symmetry. exact HC.
Qed.

Lemma accepted_candidate_unique_witness :
  header_len ["CONFIG_A=y" +++ nl] = 0 /\
  equal_confs_lines ["CONFIG_A=y" +++ nl] ["CONFIG_A=y" +++ nl] = true /\
  (forall C, equal_confs_lines ["# header" +++ nl; "CONFIG_A=y" +++ nl] C = true ->
             C = ["CONFIG_A=y" +++ nl]).
Proof.
  apply (accepted_candidate_unique
           ["# header" +++ nl; "CONFIG_A=y" +++ nl] ["CONFIG_A=y" +++ nl]).
  reflexivity.
Defined.

(** ** Snapshot files *)

Section Snapshots.
Context {K : Kernel}.


Lemma rm_if_exists_absent (f : string) (w : World) :
  (forall w' g, os_path_exists w' g = false -> readlines w' g = None) ->
  (forall w' g, readlines (os_remove g w') g = None) ->
  readlines (rm_if_exists f w) f = None.
Proof.
  intros Hex Hrm. unfold rm_if_exists.
  destruct (os_path_exists w f) eqn:E; [apply Hrm | apply Hex, E].
Qed.

(** X5: on a file system where a file that does not exist cannot be read,
    a removed file is gone and removing a file brings no other file back, a
    comparison right after [rm_configs] raises [IOError]: a trial is never
    judged on the snapshots of the trial before it. *)
Theorem rm_configs_then_equal_confs_raises (s : State) :
  (forall w g, os_path_exists w g = false -> readlines w g = None) ->
  (forall w g, readlines (os_remove g w) g = None) ->
  (forall w f g, readlines w f = None -> readlines (os_remove g w) f = None) ->
  exists s',
    (rm_configs ;; equal_confs) s = Raise IOError s' /\
    nconfigs s' = nconfigs s /\ _all_ok s' = _all_ok s /\
    stdout s' = stdout s /\ fail_calls s' = fail_calls s.
Proof.
  intros Hex Hrm Hkeep.
  unfold rm_configs, bind, on_world, equal_confs, open_readlines.
  cbn [world nconfigs _all_ok stdout fail_calls].
  assert (H : readlines (rm_if_exists "._config" (rm_if_exists ".config" (world s)))
                        ".config" = None).
  { pose proof (rm_if_exists_absent ".config" (world s) Hex Hrm) as H1.
    unfold rm_if_exists at 1.
    destruct (os_path_exists _ "._config"); [apply Hkeep, H1 | exact H1]. }
  unfold bind. cbn [world]. rewrite H. eexists. split; [reflexivity|]. auto.
Qed.

End Snapshots.

Lemma toy_exists_read (w : Toy.toy_world) (g : string) :
  Toy.path_exists w g = false -> Toy.read w g = None.
Proof.
  unfold Toy.path_exists, Toy.read.
  destruct (String.eqb g ".config"); [destruct (Toy.dot_config w); [discriminate | reflexivity]|].
  destruct (String.eqb g "._config"); [destruct (Toy.my_config w); [discriminate | reflexivity]|].
  reflexivity.
Qed.

Lemma toy_remove_read (w : Toy.toy_world) (g : string) :
  Toy.read (Toy.remove g w) g = None.
Proof.
  unfold Toy.remove, Toy.read.
  destruct (String.eqb g ".config") eqn:E1; [simpl; reflexivity|].
  destruct (String.eqb g "._config") eqn:E2; [simpl; reflexivity|].
  reflexivity.
Qed.

Lemma toy_remove_keeps_absent (w : Toy.toy_world) (f g : string) :
  Toy.read w f = None -> Toy.read (Toy.remove g w) f = None.
Proof.
  unfold Toy.remove, Toy.read. intros H.
  destruct (String.eqb g ".config"); [|destruct (String.eqb g "._config")];
    simpl; destruct (String.eqb f ".config"); try reflexivity; try exact H;
    destruct (String.eqb f "._config"); try reflexivity; exact H.
Qed.

Lemma rm_configs_then_equal_confs_raises_witness :
  exists s',
    (@rm_configs Toy.kernel ;; equal_confs)
      (init_state (Toy.run_shell (Toy.write_config "._config" Toy.w0)))
    = Raise IOError s' /\
    nconfigs s' = 0 /\ _all_ok s' = true /\ stdout s' = [] /\ fail_calls s' = 0.
Proof.
  exact (@rm_configs_then_equal_confs_raises Toy.kernel
           (init_state (Toy.run_shell (Toy.write_config "._config" Toy.w0)))
           toy_exists_read toy_remove_read toy_remove_keeps_absent).
Defined.

(** ** The fixed points of the loops *)

Section FixedPoints.
Context {K : Kernel}.

Lemma tristate_eqb_eq (a b : tristate) : tristate_eqb a b = true <-> a = b.
Proof. destruct a, b; simpl; split; intros H; try reflexivity; discriminate. Qed.

Lemma bound_run_true eligible bound wants syms w w' d :
  bound_run eligible bound wants syms w w' d -> d = true ->
  w' = w /\
  forall sym, In sym syms -> eligible w sym = true ->
              forall b, bound w sym = Some b ->
                        wants b (sym_calc_value w sym) = false.
Proof.
  induction 1 as [w | sym syms w w' d b He Hb Hw _ IH | sym syms w w' d Hs _ IH];
    intros Hd.
  - split; [reflexivity | intros sym []].
  - discriminate.
  - destruct (IH Hd) as [-> Hrest]. split; [reflexivity|].
    intros sym0 [<- | Hin] Hel b Hb; [|eapply Hrest; eauto].
    destruct Hs as [He | [Hn | (b' & Hb' & Hw)]]; try congruence.
Qed.

Lemma all_no_loop_last (fuel : nat) (conf : Conf) (w w' : World) (p : nat) :
  all_no_loop fuel conf w = Some (w', p) ->
  (exists w1, all_no_pass conf w1 = (w', true)) /\ 1 <= p <= fuel.
Proof.
  revert w p. induction fuel as [|fuel IH]; intros w p H; [discriminate|].
  simpl in H. destruct (all_no_pass conf w) as [w1 done] eqn:Ep.
  destruct done.
  - inversion H; subst. split; [exists w; exact Ep | lia].
  - destruct (all_no_loop fuel conf w1) as [[w2 p2]|] eqn:El; [|discriminate].
    inversion H; subst. destruct (IH _ _ El) as [Hex Hp]. split; [exact Hex | lia].
Qed.

(** X6: the world in which the all-no loop breaks is a fixed point: a
    further pass sets nothing and leaves it as it is (so the loop run again
    breaks after one pass), and in it no symbol outside a choice has a lower
    bound strictly below its value.  The loop makes at least one pass. *)
Theorem all_no_loop_fixed_point (fuel : nat) (conf : Conf) (w w' : World)
        (p : nat) :
  all_no_loop fuel conf w = Some (w', p) ->
  all_no_pass conf w' = (w', true) /\
  (forall k, all_no_loop (S k) conf w' = Some (w', 1)) /\
  1 <= p <= fuel /\
  (forall sym, In sym (conf_iter w' conf) ->
               sym_is_choice_item w' sym = false ->
               forall lower_bound,
                 sym_get_lower_bound w' sym = Some lower_bound ->
                 tri_less lower_bound (sym_calc_value w' sym) = false).
Proof.
  intros H. destruct (all_no_loop_last _ _ _ _ _ H) as [(w1 & Hp) Hle].
  pose proof Hp as Hr. apply bound_run_iff in Hr.
  destruct (bound_run_true _ _ _ _ _ _ _ Hr eq_refl) as [-> Hall].
  split; [exact Hp|]. split; [|split; [exact Hle|]].
  - intros k. simpl. rewrite Hp. reflexivity.
  - intros sym Hin Hc b Hb. apply (Hall sym Hin); [|exact Hb].
    unfold not_choice_item. rewrite Hc. reflexivity.
Qed.

Lemma all_yes_choice_item_true (sym : Sym) (w : World) (d : bool) (w' : World) :
  all_yes_choice_item sym (w, d) = (w', true) ->
  w' = w /\ d = true /\
  (sym_calc_value w sym = tri_m \/ sym_get_upper_bound w sym = Some tri_n).
Proof.
  unfold all_yes_choice_item. intros H.
  destruct (negb (tristate_eqb (sym_calc_value w sym) tri_m) &&
            upper_bound_not_n (sym_get_upper_bound w sym)) eqn:E;
    [discriminate|].
  inversion H; subst. repeat split.
  apply andb_false_iff in E. destruct E as [E | E].
  - left. apply tristate_eqb_eq, negb_false_iff, E.
  - right. unfold upper_bound_not_n in E.
    destruct (sym_get_upper_bound w' sym) as [v|]; [|discriminate].
    apply negb_false_iff, tristate_eqb_eq in E. subst; reflexivity.
Qed.

Lemma choice_items_fold_true (items : list Sym) (w : World) (d : bool)
      (w' : World) :
  fold_left (fun st sym => all_yes_choice_item sym st) items (w, d) = (w', true) ->
  w' = w /\ d = true /\
  forall sym, In sym items ->
              sym_calc_value w sym = tri_m \/
              sym_get_upper_bound w sym = Some tri_n.
Proof.
  revert w d. induction items as [|sym items IH]; intros w d H;
    cbn [fold_left] in H.
  - inversion H; subst. repeat split. intros sym [].
  - destruct (all_yes_choice_item sym (w, d)) as [w1 d1] eqn:Ei.
    destruct (IH _ _ H) as (-> & -> & Hrest).
    destruct (all_yes_choice_item_true _ _ _ _ Ei) as (-> & -> & Hi).
    repeat split. intros sym0 [<- | Hin]; [exact Hi | apply Hrest, Hin].
Qed.

Lemma all_yes_choice_true (choice : Choice) (w : World) (d : bool) (w' : World) :
  all_yes_choice choice (w, d) = (w', true) ->
  w' = w /\ d = true /\ choice_settled w choice.
Proof.
  unfold all_yes_choice, choice_settled. intros H.
  destruct (tristate_eqb (choice_get_visibility w choice) tri_y) eqn:Ey.
  - apply tristate_eqb_eq in Ey.
    destruct (choice_get_selection_from_defaults w choice) as [sel|] eqn:Es.
    + destruct (is_not_user_selection sel (choice_get_user_selection w choice)) eqn:Eu;
        [discriminate|].
      inversion H; subst.
      split; [reflexivity|]. split; [reflexivity|]. split.
      * intros _ sel' Hs. rewrite ?Es in Hs. injection Hs as <-. exact Eu.
      * intros Hm. congruence.
    + inversion H; subst.
      split; [reflexivity|]. split; [reflexivity|]. split.
      * intros _ sel' Hs. rewrite ?Es in Hs. discriminate.
      * intros Hm. congruence.
  - assert (Hny : choice_get_visibility w choice <> tri_y).
    { intros Hv. apply tristate_eqb_eq in Hv. congruence. }
    destruct (tristate_eqb (choice_get_visibility w choice) tri_m) eqn:Em.
    + destruct (choice_items_fold_true _ _ _ _ H) as (-> & -> & Hitems).
      split; [reflexivity|]. split; [reflexivity|]. split.
      * intros Hv. contradiction.
      * intros _. exact Hitems.
    + assert (Hnm : choice_get_visibility w choice <> tri_m).
      { intros Hv. apply tristate_eqb_eq in Hv. congruence. }
      inversion H; subst.
      split; [reflexivity|]. split; [reflexivity|]. split; intros Hv; contradiction.
Qed.

Lemma all_yes_choices_fold_true (choices : list Choice) (w : World) (d : bool)
      (w' : World) :
  fold_left (fun st choice => all_yes_choice choice st) choices (w, d) = (w', true) ->
  w' = w /\ d = true /\
  forall choice, In choice choices -> choice_settled w choice.
Proof.
  revert w d. induction choices as [|c choices IH]; intros w d H;
    cbn [fold_left] in H.
  - inversion H; subst. split; [reflexivity|]. split; [reflexivity|]. intros c [].
  - destruct (all_yes_choice c (w, d)) as [w1 d1] eqn:Ec.
    destruct (IH _ _ H) as (-> & -> & Hrest).
    destruct (all_yes_choice_true _ _ _ _ Ec) as (-> & -> & Hc).
    split; [reflexivity|]. split; [reflexivity|].
    intros c0 [<- | Hin]; [exact Hc | apply Hrest, Hin].
Qed.

Lemma all_yes_pass_true (conf : Conf) (syms : list Sym) (w w' : World) :
  all_yes_pass conf syms w = (w', true) ->
  w' = w /\
  (forall sym, In sym syms ->
               forall upper_bound,
                 sym_get_upper_bound w sym = Some upper_bound ->
                 tri_less (sym_calc_value w sym) upper_bound = false) /\
  (forall choice, In choice (conf_get_choices w conf) -> choice_settled w choice).
Proof.
  unfold all_yes_pass. intros H.
  destruct (fold_left (fun st sym => all_yes_visit sym st) syms (w, true))
    as [w1 d1] eqn:Ev.
  simpl fst in H.
  destruct (all_yes_choices_fold_true _ _ _ _ H) as (-> & -> & Hch).
  apply (bound_run_iff (fun _ _ => true) sym_get_upper_bound
                       (fun upper_bound value => tri_less value upper_bound)) in Ev.
  destruct (bound_run_true _ _ _ _ _ _ _ Ev eq_refl) as [-> Hsyms].
  split; [reflexivity|]. split; [|exact Hch].
  intros sym Hin b Hb. apply (Hsyms sym Hin eq_refl b Hb).
Qed.

Lemma all_yes_loop_last (fuel : nat) (conf : Conf) (syms : list Sym)
      (w w' : World) (p : nat) :
  all_yes_loop fuel conf syms w = Some (w', p) ->
  (exists w1, all_yes_pass conf syms w1 = (w', true)) /\ 1 <= p <= fuel.
Proof.
  revert w p. induction fuel as [|fuel IH]; intros w p H; [discriminate|].
  simpl in H. destruct (all_yes_pass conf syms w) as [w1 done] eqn:Ep.
  destruct done.
  - inversion H; subst. split; [exists w; exact Ep | lia].
  - destruct (all_yes_loop fuel conf syms w1) as [[w2 p2]|] eqn:El; [|discriminate].
    inversion H; subst. destruct (IH _ _ El) as [Hex Hp]. split; [exact Hex | lia].
Qed.

(** X7: the world in which the all-yes loop breaks is a fixed point: a
    further pass sets nothing and leaves it as it is; in it no symbol of
    [non_choice_syms] has its value strictly below its upper bound, and every
    choice is settled (the default selection of a choice in "y" mode is the
    user's selection; every item of a choice in "m" mode is at "m" or has the
    upper bound "n"). *)
Theorem all_yes_loop_fixed_point (fuel : nat) (conf : Conf) (syms : list Sym)
        (w w' : World) (p : nat) :
  all_yes_loop fuel conf syms w = Some (w', p) ->
  all_yes_pass conf syms w' = (w', true) /\
  (forall k, all_yes_loop (S k) conf syms w' = Some (w', 1)) /\
  1 <= p <= fuel /\
  (forall sym, In sym syms ->
               forall upper_bound,
                 sym_get_upper_bound w' sym = Some upper_bound ->
                 tri_less (sym_calc_value w' sym) upper_bound = false) /\
  (forall choice, In choice (conf_get_choices w' conf) ->
                  choice_settled w' choice).
Proof.
  intros H. destruct (all_yes_loop_last _ _ _ _ _ _ H) as [(w1 & Hp) Hle].
  destruct (all_yes_pass_true _ _ _ _ Hp) as (-> & Hsyms & Hch).
  split; [exact Hp|]. split; [|split; [exact Hle | split; assumption]].
  intros k. simpl. rewrite Hp. reflexivity.
Qed.

End FixedPoints.

Lemma all_no_loop_fixed_point_witness :
  @all_no_pass Toy.kernel "x86"
     (Toy.set_value Toy.SymA tri_n (Toy.set_value Toy.SymB tri_n Toy.w0))
  = (Toy.set_value Toy.SymA tri_n (Toy.set_value Toy.SymB tri_n Toy.w0), true) /\
  (forall k, @all_no_loop Toy.kernel (S k) "x86"
               (Toy.set_value Toy.SymA tri_n (Toy.set_value Toy.SymB tri_n Toy.w0))
             = Some (Toy.set_value Toy.SymA tri_n
                       (Toy.set_value Toy.SymB tri_n Toy.w0), 1)) /\
  1 <= 5 <= 5 /\
  (forall sym,
      In sym [Toy.SymB; Toy.SymA] ->
      false = false ->
      forall lower_bound,
        Toy.get_lower_bound
          (Toy.set_value Toy.SymA tri_n (Toy.set_value Toy.SymB tri_n Toy.w0)) sym
        = Some lower_bound ->
        tri_less lower_bound
          (Toy.calc_value
             (Toy.set_value Toy.SymA tri_n (Toy.set_value Toy.SymB tri_n Toy.w0))
             sym) = false).
Proof.
  apply (@all_no_loop_fixed_point Toy.kernel 5 "x86" Toy.w0
           (Toy.set_value Toy.SymA tri_n (Toy.set_value Toy.SymB tri_n Toy.w0)) 5).
  vm_compute. reflexivity.
Defined.

Lemma all_yes_loop_fixed_point_witness :
  @all_yes_pass Toy.kernel "x86" [Toy.SymB; Toy.SymA] Toy.w0 = (Toy.w0, true) /\
  (forall k, @all_yes_loop Toy.kernel (S k) "x86" [Toy.SymB; Toy.SymA] Toy.w0
             = Some (Toy.w0, 1)) /\
  1 <= 5 <= 5 /\
  (forall sym,
      In sym [Toy.SymB; Toy.SymA] ->
      forall upper_bound,
        Toy.get_upper_bound Toy.w0 sym = Some upper_bound ->
        tri_less (Toy.calc_value Toy.w0 sym) upper_bound = false) /\
  (forall choice : unit, In choice [] -> @choice_settled Toy.kernel Toy.w0 choice).
Proof.
  apply (@all_yes_loop_fixed_point Toy.kernel 5 "x86" [Toy.SymB; Toy.SymA]
           (Toy.set_value Toy.SymA tri_n (Toy.set_value Toy.SymB tri_n Toy.w0))
           Toy.w0 5).
  vm_compute. reflexivity.
Defined.

(** ** The architectures that are loaded *)

Section Architectures.
Context {K : Kernel}.

Lemma add_arch_length (archdir ARCH : string) (st : list Conf * World) :
  List.length (fst (add_arch archdir ARCH st)) = S (List.length (fst st)).
Proof.
  unfold add_arch. destruct st as [res w]. destruct (new_Config _) as [c w3].
  simpl. rewrite length_app. simpl. lia.
Qed.

Lemma add_arch_dir_length (st : list Conf * World) (archdir : string) :
  List.length (fst (add_arch_dir st archdir))
  <= List.length (fst st) + (if String.eqb archdir "h8300" then 0 else 3).
Proof.
  unfold add_arch_dir. destruct (String.eqb archdir "h8300"); [lia|].
  destruct (os_path_exists _ _); [|lia].
  destruct (String.eqb archdir "x86"); [rewrite !add_arch_length; lia|].
  destruct (String.eqb archdir "sparc"); [rewrite !add_arch_length; lia|].
  destruct (String.eqb archdir "sh"); [rewrite !add_arch_length; lia|].
  destruct (String.eqb archdir "tile"); rewrite !add_arch_length; lia.
Qed.

Lemma fold_add_arch_dir_length (dirs : list string) (st : list Conf * World) :
  List.length (fst (fold_left add_arch_dir dirs st))
  <= List.length (fst st)
     + 3 * List.length (filter (fun d => negb (String.eqb d "h8300")) dirs).
Proof.
  revert st. induction dirs as [|d dirs IH]; intros st; simpl; [lia|].
  specialize (IH (add_arch_dir st d)).
  pose proof (add_arch_dir_length st d) as H.
  destruct (String.eqb d "h8300"); simpl in *; lia.
Qed.

(** X8: [get_arch_configs] loads no [Config] for a directory named
    [h8300] and at most three for any other directory of [arch/]. *)
Theorem arch_configs_bound (w : World) :
  List.length (fst (arch_configs_of w))
  <= 3 * List.length (filter (fun d => negb (String.eqb d "h8300"))
                             (os_listdir w "arch")).
Proof.
  unfold arch_configs_of.
  pose proof (fold_add_arch_dir_length (os_listdir w "arch") ([], w)) as H.
  destruct (fold_left add_arch_dir (os_listdir w "arch") ([], w)) as [res w'].
  simpl in *. exact H.
Qed.

Section StableTree.
Hypothesis Hsetenv : forall w k v p,
    os_path_exists (os_setenv k v w) p = os_path_exists w p.
Hypothesis Hnew : forall w p,
    os_path_exists (snd (new_Config w)) p = os_path_exists w p.








End StableTree.
End Architectures.


(** ** The introspection pass *)

Section CallAll.
Context {K : Kernel}.

(** X10: the location checks of [test_call_all] on a symbol return, read
    only, and call [fail()] (once or twice) exactly when the define locations
    of the symbol contradict what it is; a symbol that is not special, not
    defined and referenced nowhere gets a message of its own, for which
    [fail()] is not called; nothing is printed for any other symbol. *)
Theorem location_checks_outcome (sym : Sym) (s : State) :
  exists s' out,
    location_checks sym s = Ret tt s' /\
    world s' = world s /\ nconfigs s' = nconfigs s /\
    stdout s' = stdout s ++ out /\
    (locations_inconsistent (world s) sym = false ->
     _all_ok s' = _all_ok s /\ fail_calls s' = fail_calls s) /\
    (locations_inconsistent (world s) sym = true ->
     _all_ok s' = false /\
     fail_calls s < fail_calls s' <= fail_calls s + 2) /\
    (out = [] <-> locations_inconsistent (world s) sym = false /\
                  unreferenced (world s) sym = false) /\
    (locations_inconsistent (world s) sym = false ->
     unreferenced (world s) sym = true ->
     out = [("Fail: '" +++ sym_get_name (world s) sym +++
             "' both undefined and unreferenced") +++ nl]).
Proof.
  unfold location_checks, locations_inconsistent, unreferenced, when, bind,
    gets, print, stdout_write, fail, ret.
  destruct (sym_is_special (world s) sym);
    [destruct (sym_is_from_environment (world s) sym)|];
    destruct (sym_is_defined (world s) sym);
    cbn -[String.append];
    destruct (sym_get_def_locations (world s) sym) as [|d0 defs];
    cbn -[String.append];
    destruct (sym_get_ref_locations (world s) sym) as [|r0 refs];
    cbn -[String.append];
    eexists; eexists;
    (split; [reflexivity|]);
    cbn [world nconfigs _all_ok stdout fail_calls];
    (split; [reflexivity|]); (split; [reflexivity|]);
    (split; [first [ symmetry; apply app_nil_r
                   | rewrite <- ?app_assoc; reflexivity ]|]);
    repeat split; intros; try discriminate; try lia; try reflexivity;
    try (match goal with H : _ /\ _ |- _ => destruct H; discriminate end).
Qed.

Lemma for_each_reset_checks (syms : list Sym) (s : State) :
  exists s',
    for_each syms (fun sym => on_world (sym_reset sym) ;; location_checks sym) s
    = Ret tt s' /\
    world s' = fold_left (fun w sym => sym_reset sym w) syms (world s) /\
    nconfigs s' = nconfigs s.
Proof.
  revert s. induction syms as [|sym syms IH]; intros s; cbn [for_each fold_left].
  - exists s. auto.
  - set (s0 := mkState (nconfigs s) (_all_ok s) (stdout s) (fail_calls s)
                        (sym_reset sym (world s))).
    destruct (wp_location_checks sym s0
                (fun _ s' => world s' = world s0 /\ nconfigs s' = nconfigs s0))
      as ([] & s1 & R1 & W1 & N1).
    { intros s' out (N & _) _ W. split; [exact W | lia]. }
    destruct (IH s1) as (s2 & R2 & W2 & N2).
    exists s2. split.
    + rewrite bind_assoc.
      rewrite (bind_Ret (on_world (sym_reset sym)) _ s tt _ eq_refl).
      rewrite (bind_Ret _ _ _ _ _ R1). exact R2.
    + rewrite W2, W1, N2, N1. auto.
Qed.

(** X11: when the engine evaluates ["y && ARCH"], [test_call_all] returns
    and has done nothing to the world but reset the configuration and then
    each of its symbols; in particular it has written no snapshot and run no
    command; and it counts no arch/defconfig pair. *)
Theorem test_call_all_only_resets (conf : Conf) (s : State) :
  conf_eval (world s) conf "y && ARCH" = EvalOk ->
  exists s',
    test_call_all conf s = Ret tt s' /\
    world s' = fold_left (fun w sym => sym_reset sym w)
                         (conf_get_symbols (conf_reset conf (world s)) conf)
                         (conf_reset conf (world s)) /\
    nconfigs s' = nconfigs s.
Proof.
  intros He. unfold test_call_all.
  rewrite (bind_Ret (print _) _ s tt _ eq_refl).
  erewrite (bind_Ret (conf_eval_m conf "y && ARCH"));
    [| unfold conf_eval_m; cbn [world]; rewrite He; reflexivity].
  destruct (wp_syntax_error_check conf
              (mkState (nconfigs s) (_all_ok s)
                       (stdout s ++ [("  For " +++ conf_get_arch conf +++ "...") +++ nl])
                       (fail_calls s) (world s))
              (fun _ s2 => world s2 = world s /\ nconfigs s2 = nconfigs s))
    as ([] & s2 & R2 & W2 & N2).
  { intros s' out (N & _ & _) _ W. simpl in N, W. split; [exact W | lia]. }
  rewrite (bind_Ret _ _ _ _ _ R2).
  rewrite (bind_Ret (on_world (conf_reset conf)) _ s2 tt _ eq_refl).
  rewrite (bind_Ret (gets _) _ _ _ _ eq_refl).
  cbn [world].
  destruct (for_each_reset_checks
              (conf_get_symbols (conf_reset conf (world s2)) conf)
              (mkState (nconfigs s2) (_all_ok s2) (stdout s2) (fail_calls s2)
                       (conf_reset conf (world s2))))
    as (s3 & R3 & W3 & N3).
  exists s3. split; [exact R3|]. cbn [world nconfigs] in W3, N3.
  rewrite W3, N3, W2, N2. auto.
Qed.

End CallAll.

Lemma test_call_all_only_resets_witness :
  exists s',
    @test_call_all Toy.kernel "x86" (init_state Toy.w0) = Ret tt s' /\
    world s' = Toy.reset Toy.w0 /\
    nconfigs s' = 0.
Proof.
  apply (@test_call_all_only_resets Toy.kernel "x86"
           (@init_state Toy.kernel Toy.w0)).
  vm_compute. reflexivity.
Defined.

(** ** Verdicts, pairs and failures over a whole run *)

Section Tally.
Context {K : Kernel}.
Variable fuel : nat.
Hypothesis Hwb : well_behaved fuel.

















End Tally.

Section RunFacts.
Context {K : Kernel}.




(** X14: with collaborators that behave, [test_defconfig] for one
    architecture enumerates the defconfigs once, when it starts (after the
    failure log is opened), prints the warnings of the enumeration, and then
    counts each defconfig found once and writes for it one progress text and
    one verdict, in the order of the enumeration. *)
Theorem test_defconfig_report (fuel : nat) (conf : Conf) (s : State) :
  well_behaved fuel ->
  exists s' vs,
    test_defconfig conf s = Ret tt s' /\
    List.length vs
      = List.length (defconfigs_of (open_append "test_defconfig_fails" (world s))) /\
    nconfigs s'
      = nconfigs s
        + List.length (defconfigs_of (open_append "test_defconfig_fails" (world s))) /\
    stdout s'
      = stdout s ++
        arch_report
          (fst (enumeration (open_append "test_defconfig_fails" (world s))))
          (snd (enumeration (open_append "test_defconfig_fails" (world s))))
          (conf, vs).
Proof.
  intros Hwb.
  assert (H : wp (test_defconfig conf) s
                 (fun _ s' => exists vs,
                      List.length vs
                        = List.length
                            (defconfigs_of
                               (open_append "test_defconfig_fails" (world s))) /\
                      eff s s'
                          (List.length
                             (defconfigs_of
                                (open_append "test_defconfig_fails" (world s))))
                          (arch_report
                             (fst (enumeration
                                     (open_append "test_defconfig_fails" (world s))))
                             (snd (enumeration
                                     (open_append "test_defconfig_fails" (world s))))
                             (conf, vs)))).
  { unfold test_defconfig, collect_defconfigs.
    apply wp_bind, wp_on_world. intros s1 E1 W1.
    apply wp_bind. apply wp_bind, wp_gets. cbv beta.
    apply wp_bind, wp_for_each_print. intros s2 E2 W2. apply wp_ret.
    rewrite W1.
    apply (wp_for_each _ (fun _ : bool => True) 1 (trial_report conf)).
    - intros d s0. apply (wp_defconfig_trial fuel Hwb).
    - intros s3 vs _ Hlen E3. exists vs. split; [exact Hlen|].
      rewrite W1 in E2. unfold arch_report, enumeration. simpl fst; simpl snd.
      eff_chain. }
  destruct H as ([] & s' & R & vs & Hlen & (N & O & _)).
  exists s', vs. auto.
Qed.

End RunFacts.



Lemma test_defconfig_report_witness :
  exists s' vs,
    @test_defconfig Toy.kernel "x86" (init_state Toy.w0) = Ret tt s' /\
    List.length vs = 2 /\
    nconfigs s' = 0 + 2 /\
    stdout s'
      = [] ++ @arch_report Toy.kernel
                ["arch/x86/defconfig"; "arch/x86/configs/a_defconfig"] []
                ("x86", vs).
Proof.
  exact (@test_defconfig_report Toy.kernel 5 "x86" (@init_state Toy.kernel Toy.w0)
           toy_well_behaved).
Defined.

(** ** Edges of a run: nothing to test, and a snapshot that is missing *)

Ltac run_step :=
  rewrite ?bind_assoc;
  erewrite bind_Ret by reflexivity;
  cbn beta iota delta [world nconfigs _all_ok stdout fail_calls].

Ltac run_with lem :=
  rewrite ?bind_assoc;
  erewrite bind_Ret by apply lem;
  cbn beta iota delta [world nconfigs _all_ok stdout fail_calls].

Section Edges.
Context {K : Kernel}.

Lemma bind_Raise {A B} (m : M A) (f : A -> M B) (s : State) (e : exn)
      (s1 : State) :
  m s = Raise e s1 -> bind m f s = Raise e s1.
Proof. intros H. unfold bind. rewrite H. reflexivity. Qed.

Lemma for_each_reset_Ret (archs : list Conf) (s : State) :
  for_each archs (fun arch => on_world (conf_reset arch)) s
  = Ret tt (mkState (nconfigs s) (_all_ok s) (stdout s) (fail_calls s)
                    (fold_left (fun w arch => conf_reset arch w) archs (world s))).
Proof.
  revert s. induction archs as [|a archs IH]; intros s.
  - destruct s; reflexivity.
  - cbn [for_each]. run_step. rewrite IH. reflexivity.
Qed.


(** X16: if the reference tool leaves no [.config] behind, the first
    comparison of the run, for the first architecture in the all-no test,
    raises [IOError]: the run ends there with exit status 1, after the
    progress text of that architecture, with no verdict written, no summary,
    the flag still set and [fail()] never called. *)
Theorem missing_reference_aborts_run (fuel : nat) (w : World)
        (conf0 : Conf) (rest : list Conf) :
  arch_configs w = conf0 :: rest ->
  (forall w', all_no_loop fuel conf0 w' <> None) ->
  (forall cmd w', readlines (shell cmd w') ".config" = None) ->
  exists s',
    main fuel w = Raise IOError s' /\
    exit_status (main fuel w) = Some 1 /\
    nconfigs s' = 0 /\ _all_ok s' = true /\ fail_calls s' = 0 /\
    stdout s'
    = [ "Loading Config instances for all architectures..." +++ nl;
        "Resetting all architecture Config instances prior to next test..." +++ nl;
        test_doc (all_no_test fuel) +++ nl;
        compare_progress conf0 ].
Proof.
  intros Harch Hloop Htool. unfold arch_configs in Harch.
  assert (H : exists s', main fuel w = Raise IOError s' /\
                nconfigs s' = 0 /\ _all_ok s' = true /\ fail_calls s' = 0 /\
                stdout s'
                = [ "Loading Config instances for all architectures..." +++ nl;
                    "Resetting all architecture Config instances prior to next test..." +++ nl;
                    test_doc (all_no_test fuel) +++ nl;
                    compare_progress conf0 ]).
  { unfold main, run_tests, init_state.
    run_step. run_step. run_step.
    run_with get_arch_configs_Ret.
    fold (start_world w). rewrite Harch.
    cbn [all_arch_tests for_each]. unfold run_test at 1.
    run_step.
    run_with for_each_reset_Ret.
    run_step.
    cbn [for_each]. unfold run_arch at 1, rm_configs.
    run_step. run_step. run_step.
    cbn [test_fn all_no_test compare_configs when]. unfold test_all_no, shell_m.
    rewrite ?bind_assoc.
    match goal with
    | |- context [bind (run_loop (all_no_loop fuel conf0)) _ ?s] =>
        destruct (all_no_loop fuel conf0 (world s)) as [[w1 p]|] eqn:E;
        [|exfalso; exact (Hloop _ E)];
        erewrite (bind_Ret (run_loop (all_no_loop fuel conf0)) _ s)
          by (unfold run_loop; rewrite E; reflexivity)
    end.
    cbn beta iota delta [world nconfigs _all_ok stdout fail_calls].
    run_step. run_step.
    unfold compare_step.
    run_step.
    unfold equal_confs. rewrite ?bind_assoc.
    erewrite bind_Raise.
    2:{ unfold open_readlines. cbn [world]. rewrite Htool. reflexivity. }
    eexists. split; [reflexivity|].
    cbn [world nconfigs _all_ok fail_calls stdout].
    repeat (split; [reflexivity|]). reflexivity. }
  destruct H as (s' & Hmain & H). exists s'.
  split; [exact Hmain|]. split; [rewrite Hmain; reflexivity | exact H].
Qed.

(** X17: whenever both snapshots can be read after the reference tool has
    run, a trial of [test_defconfig] returns, has counted the pair and written
    the progress text and the verdict of the comparison; it appends a record
    to the failure log and calls [fail()] exactly when the verdict is
    ["FAIL"], and otherwise leaves the log, the flag and the count of
    failures as they were. *)
Theorem defconfig_trial_outcome (conf : Conf) (defconfig : string) (s : State)
        (l1 l2 : list string) :
  readlines (trial_world conf defconfig (world s)) ".config" = Some l1 ->
  readlines (trial_world conf defconfig (world s)) "._config" = Some l2 ->
  exists s',
    defconfig_trial conf defconfig s = Ret tt s' /\
    nconfigs s' = S (nconfigs s) /\
    stdout s'
    = stdout s ++ trial_report conf (defconfig, equal_confs_lines l1 l2) /\
    (equal_confs_lines l1 l2 = true ->
     world s' = trial_world conf defconfig (world s) /\
     _all_ok s' = _all_ok s /\ fail_calls s' = fail_calls s) /\
    (equal_confs_lines l1 l2 = false ->
     world s'
     = file_write "test_defconfig_fails"
         (fail_log_record
            (strftime_now (trial_world conf defconfig (world s))) conf defconfig)
         (trial_world conf defconfig (world s)) /\
     _all_ok s' = false /\ fail_calls s' = S (fail_calls s)).
Proof.
  intros H1 H2. unfold trial_world in *.
  unfold defconfig_trial, rm_configs, shell_m.
  do 8 run_step.
  unfold equal_confs. rewrite ?bind_assoc.
  erewrite (bind_Ret (open_readlines ".config"))
    by (unfold open_readlines; cbn [world]; rewrite H1; reflexivity).
  cbn beta. rewrite ?bind_assoc.
  erewrite (bind_Ret (open_readlines "._config"))
    by (unfold open_readlines; cbn [world]; rewrite H2; reflexivity).
  cbn beta. run_step.
  destruct (equal_confs_lines l1 l2) eqn:E.
  - eexists. split; [reflexivity|].
    cbn [world nconfigs _all_ok stdout fail_calls].
    split; [reflexivity|]. split.
    + unfold trial_report, verdict_line. cbn [fst snd].
      rewrite <- app_assoc. reflexivity.
    + split; [auto | discriminate].
  - do 3 run_step.
    eexists. split; [reflexivity|].
    cbn [world nconfigs _all_ok stdout fail_calls].
    split; [reflexivity|]. split.
    + unfold trial_report, verdict_line. cbn [fst snd].
      rewrite <- app_assoc. reflexivity.
    + split; [discriminate | auto].
Qed.

End Edges.


Lemma missing_reference_aborts_run_witness :
  exists s',
    @main (Lab.kernel ["x86"; "h8300"] false) 5 Toy.w0 = Raise IOError s' /\
    exit_status (@main (Lab.kernel ["x86"; "h8300"] false) 5 Toy.w0) = Some 1 /\
    nconfigs s' = 0 /\ _all_ok s' = true /\ fail_calls s' = 0 /\
    stdout s'
    = [ "Loading Config instances for all architectures..." +++ nl;
        "Resetting all architecture Config instances prior to next test..." +++ nl;
        test_doc (@all_no_test (Lab.kernel ["x86"; "h8300"] false) 5) +++ nl;
        @compare_progress (Lab.kernel ["x86"; "h8300"] false) "x86" ].
Proof.
  apply (@missing_reference_aborts_run (Lab.kernel ["x86"; "h8300"] false) 5
           Toy.w0 "x86" ["i386"; "x86_64"]).
  - vm_compute. reflexivity.
  - intros w'. destruct w' as [[] [] dc mc t e l]; vm_compute; discriminate.
  - intros cmd w'. reflexivity.
Defined.

Lemma defconfig_trial_outcome_witness :
  exists s',
    @defconfig_trial Toy.kernel "x86" "arch/x86/defconfig" (init_state Toy.w0)
    = Ret tt s' /\
    nconfigs s' = 1 /\
    stdout s'
    = [] ++ @trial_report Toy.kernel "x86" ("arch/x86/defconfig", false) /\
    (false = true ->
     world s' = @trial_world Toy.kernel "x86" "arch/x86/defconfig" Toy.w0 /\
     _all_ok s' = true /\ fail_calls s' = 0) /\
    (false = false ->
     world s'
     = Toy.log_write
         (@fail_log_record Toy.kernel "01 Jan 2011 00:00:00" "x86"
            "arch/x86/defconfig")
         (@trial_world Toy.kernel "x86" "arch/x86/defconfig" Toy.w0) /\
     _all_ok s' = false /\ fail_calls s' = 1).
Proof.
  exact (@defconfig_trial_outcome Toy.kernel "x86" "arch/x86/defconfig"
           (@init_state Toy.kernel Toy.w0)
           [("#" +++ nl); ("# Automatically generated" +++ nl);
            Toy.render_sym "B" tri_n; Toy.render_sym "A" tri_n]
           [Toy.render_sym "B" tri_y; Toy.render_sym "A" tri_y]
           eq_refl eq_refl).
Defined.
